(** * Constellation background animation: model and properties

    Shallow embedding of the [Constellation] class (the animated canvas
    background of the portfolio site).

    Modelling conventions.
    - A JavaScript number is an idealised real number ([R]): IEEE rounding,
      infinities and NaN are abstracted away.  [Math.sqrt], [Math.max],
      [Math.min] and [Math.floor] are [sqrt], [Rmax], [Rmin] and [Zfloor].
      The statements are kept to what rounding preserves (orders,
      comparisons, copies, and expressions written as the code writes
      them); where a statement of the specification depends on rounding,
      module [Binary64] evaluates the same lines in IEEE binary64.
    - [Math.random] is an entropy source [random : nat -> R] read at an
      increasing position kept in the host state; the documented range
      of [Math.random] is the section hypothesis [random_range].
    - [this.stars] is a list of records.  [forEach] callbacks mutate the
      star objects in place, which is a map over the list that keeps the
      order, so a star object is identified by its index.  A line holds
      references to two star objects: they are their indices in
      [this.stars].
    - The canvas, its 2D context and [draw] only read the state: the
      frame leaves them out, and [draw] and [destroy] are modelled on
      their own further down; [requestAnimationFrame] hands out fresh
      positive handles.
    - [this.lines] is rebuilt by every frame before it is read; between a
      resize and the next frame it still describes the stars of the frame
      before. *)

From Stdlib Require Import String.
From Stdlib Require Import PrimFloat.
From Stdlib Require Import Reals Lra Lia List ZArith Bool.
Import ListNotations.

Local Open Scope R_scope.

(** ** Data model *)

(** An element of [this.stars]. *)
Record star : Type := mkStar {
  x : R;
  y : R;
  size : R;
  opacity : R;
  vx : R;
  vy : R;
  originalVx : R;
  originalVy : R
}.

(** The [{ min, max }] object literals of the configuration. *)
Record range : Type := mkRange { min : R; max : R }.

(** [this.config].  The [opacity] entry is [opacityRange] here, since
    [opacity] already names the field of a star. *)
Record config : Type := mkConfig {
  starDensity : R;
  maxDistance : R;
  starSize : range;
  opacityRange : range;
  speed : range;
  mouseInfluence : R;
  mouseForce : R
}.

(** The literal written in the constructor. *)
Definition default_config : config :=
  {| starDensity := 8000;
     maxDistance := 130;
     starSize := {| min := 0.5; max := 2 |};
     opacityRange := {| min := 0.2; max := 0.8 |};
     speed := {| min := -0.3; max := 0.3 |};
     mouseInfluence := 100;
     mouseForce := 0.00005 |}.

(** An element of [this.lines]; [start] and [end_] are the indices of the
    referenced stars ([end] is a keyword), [lineOpacity] is the [opacity]
    property. *)
Record line : Type := mkLine {
  start : nat;
  end_ : nat;
  lineOpacity : R;
  distance : R
}.

(** [this.mouse]. *)
Record pointer : Type := mkPointer { mouseX : R; mouseY : R }.

(** The instance fields. *)
Record Constellation : Type := mkConstellation {
  stars : list star;
  lines : list line;
  mouse : pointer;
  animationId : option nat;
  cfg : config;
  width : R;
  height : R
}.

Definition set_stars (c : Constellation) (ss : list star) : Constellation :=
  {| stars := ss; lines := lines c; mouse := mouse c;
     animationId := animationId c; cfg := cfg c;
     width := width c; height := height c |}.

Definition set_lines (c : Constellation) (ls : list line) : Constellation :=
  {| stars := stars c; lines := ls; mouse := mouse c;
     animationId := animationId c; cfg := cfg c;
     width := width c; height := height c |}.

Definition set_mouse (c : Constellation) (p : pointer) : Constellation :=
  {| stars := stars c; lines := lines c; mouse := p;
     animationId := animationId c; cfg := cfg c;
     width := width c; height := height c |}.

Definition set_animationId (c : Constellation) (a : option nat) : Constellation :=
  {| stars := stars c; lines := lines c; mouse := mouse c;
     animationId := a; cfg := cfg c;
     width := width c; height := height c |}.

Definition set_size (c : Constellation) (w h : R) : Constellation :=
  {| stars := stars c; lines := lines c; mouse := mouse c;
     animationId := animationId c; cfg := cfg c;
     width := w; height := h |}.

(** ** The host: entropy and frame scheduler *)

(** [draws] counts the calls to [Math.random] so far, [handles] the calls
    to [requestAnimationFrame]. *)
Record host : Type := mkHost { draws : nat; handles : nat }.

(** Computations that use the host. *)
Definition Host (A : Type) : Type := host -> A * host.

Definition ret {A : Type} (a : A) : Host A := fun h => (a, h).

Definition bind {A B : Type} (m : Host A) (k : A -> Host B) : Host B :=
  fun h => let (a, h') := m h in k a h'.

Notation "v <- m ;; k" := (bind m (fun v => k))
  (at level 61, m at next level, right associativity).

Definition requestAnimationFrame : Host nat :=
  fun h => (S (handles h), {| draws := draws h; handles := S (handles h) |}).

(** [forEach] with a callback that updates the star it is given. *)
Fixpoint forEach (f : star -> Host star) (l : list star) : Host (list star) :=
  match l with
  | [] => ret []
  | s :: rest => s' <- f s ;; rest' <- forEach f rest ;; ret (s' :: rest')
  end.

(** Euclidean length [Math.sqrt(dx * dx + dy * dy)]. *)
Definition hypot (dx dy : R) : R := sqrt (dx * dx + dy * dy).

(** ** The helpers of [Utils] *)

Module Utils.

(** [Utils.clamp]. *)
Definition clamp (value min max : R) : R := Rmin (Rmax value min) max.

(** *** [Utils.throttle]

    The closure returned by [throttle (func, limit)] is a state machine
    over its variable [inThrottle].  Time is abstracted to the order of
    events: the closure is called, or one of the timers set by
    [setTimeout] fires.  [func] is abstracted to the log of the argument
    lists it was applied to. *)
Section Throttle.

Variable A : Type.

Record throttled : Type := mkThrottled {
  inThrottle : bool;
  timers : nat;
  applied : list A
}.

(** [let inThrottle;] is [undefined], which is falsy. *)
Definition throttle : throttled :=
  {| inThrottle := false; timers := 0; applied := [] |}.

Inductive throttle_event : Type :=
| ThrottledCall (args : A)
| ThrottleTimer.

Definition throttle_step (e : throttle_event) (t : throttled) : throttled :=
  match e with
  | ThrottledCall args =>
      if inThrottle t then t
      else {| inThrottle := true; timers := S (timers t);
              applied := applied t ++ [args] |}
  | ThrottleTimer =>
      match timers t with
      | O => t
      | S n => {| inThrottle := false; timers := n; applied := applied t |}
      end
  end.

Definition throttle_run (es : list throttle_event) (t : throttled) : throttled :=
  fold_left (fun t e => throttle_step e t) es t.

Definition is_throttle_timer (e : throttle_event) : bool :=
  match e with ThrottleTimer => true | ThrottledCall _ => false end.

(** A timer is pending exactly while calls are dropped. *)
Definition throttle_balanced (t : throttled) : Prop :=
  timers t = if inThrottle t then 1%nat else 0%nat.

End Throttle.

Arguments inThrottle {A}.
Arguments timers {A}.
Arguments applied {A}.
Arguments ThrottledCall {A}.
Arguments is_throttle_timer {A}.
Arguments throttle_step {A}.
Arguments throttle_run {A}.
Arguments throttle_balanced {A}.

(** *** [Utils.debounce]

    The closure returned by [debounce (func, wait, immediate)].  [timeout]
    holds a timer handle or is [undefined]/[null] ([None]); handles are
    positive, hence truthy.  [live] lists the timers that were set and
    neither fired nor were cleared, each with the arguments its [later]
    closure captured. *)
Section Debounce.

Variable A : Type.

Record debounced : Type := mkDebounced {
  timeout : option nat;
  live : list (nat * A);
  issued : nat;
  invoked : list A
}.

Definition debounce : debounced :=
  {| timeout := None; live := []; issued := 0; invoked := [] |}.

Inductive debounce_event : Type :=
| DebouncedCall (args : A)
| TimerFires (handle : nat).

(** [clearTimeout]: unknown and missing handles are ignored. *)
Definition clearTimeout (t : option nat) (l : list (nat * A)) : list (nat * A) :=
  match t with
  | None => l
  | Some h => filter (fun p => negb (Nat.eqb (fst p) h)) l
  end.

Definition is_truthy (t : option nat) : bool :=
  match t with Some _ => true | None => false end.

Definition debounce_step (immediate : bool) (e : debounce_event)
           (d : debounced) : debounced :=
  match e with
  | DebouncedCall args =>
      let callNow := immediate && negb (is_truthy (timeout d)) in
      let cleared := clearTimeout (timeout d) (live d) in
      let h := S (issued d) in
      {| timeout := Some h;
         live := cleared ++ [(h, args)];
         issued := h;
         invoked := if callNow then invoked d ++ [args] else invoked d |}
  | TimerFires h =>
      match find (fun p => Nat.eqb (fst p) h) (live d) with
      | None => d
      | Some (_, args) =>
          {| timeout := None;
             live := filter (fun p => negb (Nat.eqb (fst p) h)) (live d);
             issued := issued d;
             invoked := if immediate then invoked d else invoked d ++ [args] |}
      end
  end.

Definition debounce_run (immediate : bool) (es : list debounce_event)
           (d : debounced) : debounced :=
  fold_left (fun d e => debounce_step immediate e d) es d.

(** At most one timer is live, and [timeout] holds its handle. *)
Definition one_timer (d : debounced) : Prop :=
  (timeout d = None /\ live d = [])
  \/ (exists args, timeout d = Some (issued d)
                   /\ live d = [(issued d, args)]).

End Debounce.

Arguments timeout {A}.
Arguments live {A}.
Arguments issued {A}.
Arguments invoked {A}.
Arguments DebouncedCall {A}.
Arguments clearTimeout {A}.
Arguments debounce_step {A}.
Arguments debounce_run {A}.
Arguments one_timer {A}.

End Utils.

(** ** The validators of [Utils.validate]

    A string is its sequence of UTF-16 code units.  The two patterns use
    no back-reference and no look-around, and both are anchored with [^]
    and [$] and carry no flag, so [regex.test] answers whether the whole
    string belongs to the regular language of the pattern; [test] decides
    that with Brzozowski derivatives. *)
Module Validate.

Inductive regex : Type :=
| Never
| Empty
| Class (p : N -> bool)
| Then (r1 r2 : regex)
| Or (r1 r2 : regex)
| Star (r : regex).

(** [r+], [r?] and [r{0,n}]. *)
Definition Plus (r : regex) : regex := Then r (Star r).

Definition Opt (r : regex) : regex := Or r Empty.

Fixpoint Upto (n : nat) (r : regex) : regex :=
  match n with
  | O => Empty
  | S n' => Opt (Then r (Upto n' r))
  end.

(** The language of a pattern. *)
Inductive matches : regex -> list N -> Prop :=
| matches_Empty : matches Empty []
| matches_Class p c : p c = true -> matches (Class p) [c]
| matches_Then r1 r2 s1 s2 :
    matches r1 s1 -> matches r2 s2 -> matches (Then r1 r2) (s1 ++ s2)
| matches_Or_l r1 r2 s : matches r1 s -> matches (Or r1 r2) s
| matches_Or_r r1 r2 s : matches r2 s -> matches (Or r1 r2) s
| matches_Star_nil r : matches (Star r) []
| matches_Star_app r s1 s2 :
    matches r s1 -> matches (Star r) s2 -> matches (Star r) (s1 ++ s2).

Fixpoint nullable (r : regex) : bool :=
  match r with
  | Never => false
  | Empty => true
  | Class _ => false
  | Then r1 r2 => nullable r1 && nullable r2
  | Or r1 r2 => nullable r1 || nullable r2
  | Star _ => true
  end.

Fixpoint deriv (c : N) (r : regex) : regex :=
  match r with
  | Never => Never
  | Empty => Never
  | Class p => if p c then Empty else Never
  | Then r1 r2 =>
      if nullable r1
      then Or (Then (deriv c r1) r2) (deriv c r2)
      else Then (deriv c r1) r2
  | Or r1 r2 => Or (deriv c r1) (deriv c r2)
  | Star r1 => Then (deriv c r1) (Star r1)
  end.

(** [/^r$/.test(s)]. *)
Definition test (r : regex) (s : list N) : bool :=
  nullable (fold_left (fun r c => deriv c r) s r).

(** [\s]: the white space and line terminator code points of ECMAScript
    (tab, LF, VT, FF, CR, space, no-break space, U+1680, U+2000 to U+200A,
    U+2028, U+2029, U+202F, U+205F, U+3000, U+FEFF). *)
Definition is_space (c : N) : bool :=
  existsb (N.eqb c)
          [9; 10; 11; 12; 13; 32; 160; 5760; 8232; 8233; 8239; 8287;
           12288; 65279]%N
  || (8192 <=? c)%N && (c <=? 8202)%N.

(** [\d] and [[1-9]]. *)
Definition is_digit (c : N) : bool := (48 <=? c)%N && (c <=? 57)%N.

Definition is_nonzero_digit (c : N) : bool := (49 <=? c)%N && (c <=? 57)%N.

Definition at_sign : N := 64.
Definition dot : N := 46.
Definition plus_sign : N := 43.

(** [[^\s@]]. *)
Definition is_address_char (c : N) : bool :=
  negb (is_space c || N.eqb c at_sign).

(** [/^[^\s@]+@[^\s@]+\.[^\s@]+$/]. *)
Definition email_regex : regex :=
  Then (Plus (Class is_address_char))
       (Then (Class (N.eqb at_sign))
             (Then (Plus (Class is_address_char))
                   (Then (Class (N.eqb dot))
                         (Plus (Class is_address_char))))).

Definition email (s : list N) : bool := test email_regex s.

(** [/^[\+]?[1-9][\d]{0,15}$/]. *)
Definition phone_regex : regex :=
  Then (Opt (Class (N.eqb plus_sign)))
       (Then (Class is_nonzero_digit) (Upto 15 (Class is_digit))).

(** [phone.replace(/\s/g, '')]. *)
Definition strip_spaces (s : list N) : list N :=
  filter (fun c => negb (is_space c)) s.

Definition phone (s : list N) : bool := test phone_regex (strip_spaces s).

End Validate.

(** ** [Utils.storage]

    [localStorage] is a map from keys to strings, or unavailable, in which
    case every access throws.  [JSON] is not code of this repository: the
    values [V], [JSON.stringify] (the string [setItem] ends up storing,
    [None] when [JSON.stringify] throws, as it does for a cyclic object or
    a BigInt) and [JSON.parse] ([None] when it throws) are parameters, and
    so is [fits], which says whether [setItem] succeeds or throws for lack
    of room.  [console.warn] is left out. *)
Module Storage.

Section WithJSON.

Variable V : Type.
Variable stringify : V -> option string.
Variable parse : string -> option V.
Variable fits : (string -> option string) -> string -> string -> bool.

Record localStorage : Type := mkStorage {
  available : bool;
  items : string -> option string
}.

Definition setItem (key value : string) (m : string -> option string)
  : string -> option string :=
  fun k => if String.eqb k key then Some value else m k.

Definition removeItem (key : string) (m : string -> option string)
  : string -> option string :=
  fun k => if String.eqb k key then None else m k.

(** Everything [set] does is inside its [try]: reading [localStorage],
    [JSON.stringify] and [setItem] may each throw, and then [set] answers
    false and nothing has been stored. *)
Definition set (key : string) (value : V) (ls : localStorage)
  : bool * localStorage :=
  if available ls then
    match stringify value with
    | Some text =>
        if fits (items ls) key text then
          (true, {| available := true;
                    items := setItem key text (items ls) |})
        else (false, ls)
    | None => (false, ls)
    end
  else (false, ls).

(** [item ? JSON.parse(item) : defaultValue]: a missing item and the
    empty string are both falsy. *)
Definition get (key : string) (defaultValue : V) (ls : localStorage) : V :=
  if available ls then
    match items ls key with
    | None => defaultValue
    | Some EmptyString => defaultValue
    | Some item =>
        match parse item with
        | Some v => v
        | None => defaultValue
        end
    end
  else defaultValue.

Definition remove (key : string) (ls : localStorage) : bool * localStorage :=
  if available ls then
    (true, {| available := true; items := removeItem key (items ls) |})
  else (false, ls).

Definition clear (ls : localStorage) : bool * localStorage :=
  if available ls then
    (true, {| available := true; items := fun _ => None |})
  else (false, ls).

End WithJSON.

End Storage.

(** ** The mobile menu of [Portfolio] *)

Module Portfolio.

(** The part of the document the menu code reads and writes: whether
    [.mobile-menu-btn] and [.nav] exist, whether each carries the class
    [active], [document.body.style.overflow] and the [--vh] property (in
    px, [None] while unset). *)
Record page : Type := mkPage {
  has_btn : bool;
  has_nav : bool;
  btn_active : bool;
  nav_active : bool;
  overflow : string;
  vh : option R
}.

Definition toggleMobileMenu (p : page) : page :=
  if has_btn p && has_nav p then
    let nav' := negb (nav_active p) in
    {| has_btn := has_btn p; has_nav := has_nav p;
       btn_active := negb (btn_active p);
       nav_active := nav';
       overflow := if nav' then "hidden"%string else EmptyString;
       vh := vh p |}
  else p.

Definition closeMobileMenu (p : page) : page :=
  if has_btn p && has_nav p then
    {| has_btn := has_btn p; has_nav := has_nav p;
       btn_active := false; nav_active := false;
       overflow := EmptyString; vh := vh p |}
  else p.

Definition updateCSSVariables (innerHeight : R) (p : page) : page :=
  {| has_btn := has_btn p; has_nav := has_nav p;
     btn_active := btn_active p; nav_active := nav_active p;
     overflow := overflow p; vh := Some (innerHeight * 0.01) |}.

Definition handleResize (innerWidth innerHeight : R) (p : page) : page :=
  let p1 := updateCSSVariables innerHeight p in
  if Rgt_dec innerWidth 767 then closeMobileMenu p1 else p1.

(** What reaches the listeners of [setupMobileMenu] and [handleResize]
    (behind its debounce).  A click carries whether its target is inside
    [.header]. *)
Inductive menu_event : Type :=
| ClickButton (inHeader : bool)
| ClickNavLink (inHeader : bool)
| ClickElsewhere (inHeader : bool)
| WindowResized (innerWidth innerHeight : R).

(** The document-level click listener. *)
Definition documentClick (inHeader : bool) (p : page) : page :=
  if inHeader then p else closeMobileMenu p.

(** The listeners exist only if both elements were found by
    [setupMobileMenu]; the element listener runs before the click bubbles
    to the document. *)
Definition menu_step (e : menu_event) (p : page) : page :=
  match e with
  | ClickButton h =>
      if has_btn p && has_nav p then documentClick h (toggleMobileMenu p) else p
  | ClickNavLink h =>
      if has_btn p && has_nav p then documentClick h (closeMobileMenu p) else p
  | ClickElsewhere h =>
      if has_btn p && has_nav p then documentClick h p else p
  | WindowResized w h => handleResize w h p
  end.

Definition menu_run (es : list menu_event) (p : page) : page :=
  fold_left (fun p e => menu_step e p) es p.

(** The body scroll is locked exactly while the menu is open. *)
Definition locked_iff_open (p : page) : Prop :=
  overflow p = if nav_active p then "hidden"%string else EmptyString.

End Portfolio.

(** ** The velocity lines in binary64

    The same source lines evaluated in IEEE binary64, the arithmetic of a
    JavaScript number, on the fields of a star the velocity depends on
    (the opacity and the radius do not feed into it).  A decimal literal
    denotes the nearest binary64 value, as it does in the source. *)
Module Binary64.

#[local] Set Warnings "-inexact-float".

Local Open Scope float_scope.

Record star : Type := mkStar {
  x : float;
  y : float;
  vx : float;
  vy : float;
  originalVx : float;
  originalVy : float
}.

(** The surface, the pointer and the two pointer entries of the
    configuration. *)
Record scene : Type := mkScene {
  width : float;
  height : float;
  mouseX : float;
  mouseY : float;
  mouseInfluence : float;
  mouseForce : float
}.

(** [if (v < 0) v = limit; if (v > limit) v = 0]. *)
Definition wrap (v limit : float) : float :=
  let v1 := if v <? 0 then limit else v in
  if limit <? v1 then 0 else v1.

(** The callback of [updateStars], without the opacity lines. *)
Definition update (w : scene) (s : star) : star :=
  {| x := wrap (x s + vx s) (width w);
     y := wrap (y s + vy s) (height w);
     vx := vx s + (originalVx s - vx s) * 0.01;
     vy := vy s + (originalVy s - vy s) * 0.01;
     originalVx := originalVx s;
     originalVy := originalVy s |}.

(** [Math.sqrt(dx * dx + dy * dy)] of [applyMouseInfluence]. *)
Definition pointer_distance (w : scene) (s : star) : float :=
  let dx := mouseX w - x s in
  let dy := mouseY w - y s in
  PrimFloat.sqrt (dx * dx + dy * dy).

(** The callback of [applyMouseInfluence]. *)
Definition influence (w : scene) (s : star) : star :=
  let dx := mouseX w - x s in
  let dy := mouseY w - y s in
  let d := PrimFloat.sqrt (dx * dx + dy * dy) in
  if d <? mouseInfluence w then
    let force := (mouseInfluence w - d) / mouseInfluence w in
    {| x := x s; y := y s;
       vx := vx s + dx * mouseForce w * force;
       vy := vy s + dy * mouseForce w * force;
       originalVx := originalVx s; originalVy := originalVy s |}
  else s.

(** What one call of [animate] does to a star. *)
Definition frame (w : scene) (s : star) : star := influence w (update w s).

Fixpoint frames (n : nat) (w : scene) (s : star) : star :=
  match n with
  | O => s
  | S n' => frames n' w (frame w s)
  end.

(** Whether in each of the next [n] frames the star is at least
    [mouseInfluence] away from the pointer when [applyMouseInfluence]
    tests it. *)
Fixpoint undisturbed (n : nat) (w : scene) (s : star) : bool :=
  match n with
  | O => true
  | S n' =>
      negb (pointer_distance w (update w s) <? mouseInfluence w)
      && undisturbed n' w (frame w s)
  end.

(** [|vx - originalVx|], and 0.99 times it. *)
Definition residual_x (s : star) : float := PrimFloat.abs (vx s - originalVx s).


(** Whether in each of the next [n] frames [vx] stays on the side of
    [originalVx] it has in [s0], its residual does not grow and does not
    become 0. *)
Fixpoint never_overshoots (n : nat) (w : scene) (s0 s : star) : bool :=
  match n with
  | O => true
  | S n' =>
      let s' := frame w s in
      (residual_x s' <=? residual_x s)
      && (0 <? residual_x s')
      && (0 <=? (vx s' - originalVx s') * (vx s0 - originalVx s0))
      && never_overshoots n' w s0 s'
  end.

(** The default configuration on an 800 x 600 surface, pointer at the
    origin. *)
Definition default_scene : scene :=
  {| width := 800; height := 600; mouseX := 0; mouseY := 0;
     mouseInfluence := 100; mouseForce := 0.00005 |}.

(** A star far from the pointer whose velocity was nudged off its
    baseline of -0.3. *)
Definition nudged_star : star :=
  {| x := 500; y := 500; vx := -0.299; vy := 0;
     originalVx := -0.3; originalVy := 0 |}.

(** A resting star on the x axis at the given distance from the origin. *)
Definition star_on_axis (d : float) : star :=
  {| x := d; y := 0; vx := 0; vy := 0; originalVx := 0; originalVy := 0 |}.

End Binary64.

Section Animation.

Variable random : nat -> R.

(** [Math.random()] returns a number in [0, 1). *)
Hypothesis random_range : forall n, 0 <= random n < 1.

Definition Math_random : Host R :=
  fun h => (random (draws h), {| draws := S (draws h); handles := handles h |}).

(** ** [resizeCanvas] *)

Definition resizeCanvas (innerWidth innerHeight : R) (c : Constellation)
  : Constellation :=
  set_size c innerWidth innerHeight.

(** ** [createStars] *)

(** The object literal pushed in the loop body; its properties are
    evaluated in source order. *)
Definition new_star (c : Constellation) : Host star :=
  rx <- Math_random ;;
  ry <- Math_random ;;
  rs <- Math_random ;;
  ro <- Math_random ;;
  rvx <- Math_random ;;
  rvy <- Math_random ;;
  ret {| x := rx * width c;
         y := ry * height c;
         size := rs * (max (starSize (cfg c)) - min (starSize (cfg c)))
                 + min (starSize (cfg c));
         opacity := ro * (max (opacityRange (cfg c)) - min (opacityRange (cfg c)))
                    + min (opacityRange (cfg c));
         vx := (rvx - 0.5) * (max (speed (cfg c)) - min (speed (cfg c)))
               + min (speed (cfg c));
         vy := (rvy - 0.5) * (max (speed (cfg c)) - min (speed (cfg c)))
               + min (speed (cfg c));
         originalVx := 0;
         originalVy := 0 |}.

(** [for (let i = 0; i < numStars; i++) this.stars.push(...)], with [n]
    iterations left and [acc] the array so far. *)
Fixpoint push_stars (n : nat) (c : Constellation) (acc : list star)
  : Host (list star) :=
  match n with
  | O => ret acc
  | S n' => s <- new_star c ;; push_stars n' c (acc ++ [s])
  end.

(** The callback of the second pass: store the original velocities. *)
Definition store_original (s : star) : star :=
  {| x := x s; y := y s; size := size s; opacity := opacity s;
     vx := vx s; vy := vy s;
     originalVx := vx s; originalVy := vy s |}.

Definition numStars (c : Constellation) : Z :=
  Zfloor (width c * height c / starDensity (cfg c)).

Definition createStars (c : Constellation) : Host Constellation :=
  ss <- push_stars (Z.to_nat (numStars c)) c [] ;;
  ret (set_stars c (map store_original ss)).

(** ** [updateStars] *)

(** The two sequential tests on one coordinate:
    [if (v < 0) v = limit; if (v > limit) v = 0]. *)
Definition wrap (v limit : R) : R :=
  let v1 := if Rlt_dec v 0 then limit else v in
  if Rgt_dec v1 limit then 0 else v1.

(** The callback body for one star, [r] being the value [Math.random()]
    returns in the opacity line. *)
Definition moved_star (c : Constellation) (s : star) (r : R) : star :=
  let x1 := wrap (x s + vx s) (width c) in
  let y1 := wrap (y s + vy s) (height c) in
  let o1 := opacity s + (r - 0.5) * 0.02 in
  let o2 := Rmax (min (opacityRange (cfg c)))
                 (Rmin (max (opacityRange (cfg c))) o1) in
  {| x := x1; y := y1; size := size s; opacity := o2;
     vx := vx s + (originalVx s - vx s) * 0.01;
     vy := vy s + (originalVy s - vy s) * 0.01;
     originalVx := originalVx s; originalVy := originalVy s |}.

Definition update_star (c : Constellation) (s : star) : Host star :=
  r <- Math_random ;; ret (moved_star c s r).

Definition updateStars (c : Constellation) : Host Constellation :=
  ss <- forEach (update_star c) (stars c) ;;
  ret (set_stars c ss).

(** ** [createLines] *)

(** The body of the inner loop for the pair of indices [(i, j)]: the line
    pushed, if any. *)
Definition line_between (c : Constellation) (i j : nat) : list line :=
  match nth_error (stars c) i, nth_error (stars c) j with
  | Some a, Some b =>
      let dx := x a - x b in
      let dy := y a - y b in
      let d := hypot dx dy in
      if Rlt_dec d (maxDistance (cfg c)) then
        [ {| start := i; end_ := j;
             lineOpacity := (maxDistance (cfg c) - d) / maxDistance (cfg c) * 0.5;
             distance := d |} ]
      else []
  | _, _ => []
  end.

(** [for (let j = i + 1; j < this.stars.length; j++)]. *)
Definition lines_from (c : Constellation) (i : nat) : list line :=
  flat_map (line_between c i)
           (seq (S i) (length (stars c) - S i)).

(** [for (let i = 0; i < this.stars.length; i++)]. *)
Definition createLines (c : Constellation) : Constellation :=
  set_lines c (flat_map (lines_from c) (seq 0 (length (stars c)))).

(** ** [applyMouseInfluence] *)

Definition influence_star (c : Constellation) (s : star) : star :=
  let dx := mouseX (mouse c) - x s in
  let dy := mouseY (mouse c) - y s in
  let d := hypot dx dy in
  if Rlt_dec d (mouseInfluence (cfg c)) then
    let force := (mouseInfluence (cfg c) - d) / mouseInfluence (cfg c) in
    {| x := x s; y := y s; size := size s; opacity := opacity s;
       vx := vx s + dx * mouseForce (cfg c) * force;
       vy := vy s + dy * mouseForce (cfg c) * force;
       originalVx := originalVx s; originalVy := originalVy s |}
  else s.

Definition applyMouseInfluence (c : Constellation) : Constellation :=
  set_stars c (map (influence_star c) (stars c)).

(** ** [animate], [pause], [resume] *)

Definition animate (c : Constellation) : Host Constellation :=
  c1 <- updateStars c ;;
  let c2 := createLines c1 in
  let c3 := applyMouseInfluence c2 in
  id <- requestAnimationFrame ;;
  ret (set_animationId c3 (Some id)).

Definition pause (c : Constellation) : Constellation :=
  match animationId c with
  | Some _ => set_animationId c None
  | None => c
  end.

Definition resume (c : Constellation) : Host Constellation :=
  match animationId c with
  | Some _ => ret c
  | None => animate c
  end.

(** ** Construction and the event handlers of [bindEvents] *)

(** The fields as the constructor leaves them before [init]. *)
Definition blank : Constellation :=
  {| stars := []; lines := []; mouse := {| mouseX := 0; mouseY := 0 |};
     animationId := None; cfg := default_config; width := 0; height := 0 |}.

(** [init], for a window of the given inner size. *)
Definition init (innerWidth innerHeight : R) : Host Constellation :=
  c1 <- createStars (resizeCanvas innerWidth innerHeight blank) ;;
  animate c1.

Definition new_Constellation (innerWidth innerHeight : R) : Host Constellation :=
  init innerWidth innerHeight.

(** What the host can deliver to the instance. *)
Inductive event : Type :=
| Frame
| Resize (innerWidth innerHeight : R)
| MouseMove (clientX clientY : R)
| TouchMove (clientX clientY : R)
| MouseLeave
| Pause
| Resume.

(** The handler the host runs for each event.  [Frame] is the browser
    running the pending callback [() => this.animate()].  The test on
    [animationId] is the host's, not the callback's: a callback is pending
    exactly while [animationId] holds a handle ([animate] requests one
    frame, [pause] cancels it with [cancelAnimationFrame]), so a [Frame]
    met with no handle stands for a cancelled callback, which never
    runs. *)
Definition handle (e : event) (c : Constellation) : Host Constellation :=
  match e with
  | Frame =>
      match animationId c with
      | Some _ => animate c
      | None => ret c
      end
  | Resize w h => createStars (resizeCanvas w h c)
  | MouseMove cx cy => ret (set_mouse c {| mouseX := cx; mouseY := cy |})
  | TouchMove cx cy => ret (set_mouse c {| mouseX := cx; mouseY := cy |})
  | MouseLeave => ret (set_mouse c {| mouseX := 0; mouseY := 0 |})
  | Pause => ret (pause c)
  | Resume => resume c
  end.

Fixpoint run (es : list event) (c : Constellation) : Host Constellation :=
  match es with
  | [] => ret c
  | e :: rest => c' <- handle e c ;; run rest c'
  end.

(** [n] consecutive frames with no other event in between. *)
Fixpoint frames (n : nat) (c : Constellation) : Host Constellation :=
  match n with
  | O => ret c
  | S n' => c' <- animate c ;; frames n' c'
  end.

(** ** Predicates used by the statements *)

(** The position of a star lies in the closed rectangle of the surface. *)
Definition on_surface (c : Constellation) (s : star) : Prop :=
  0 <= x s <= width c /\ 0 <= y s <= height c.

(** The position of a star lies in the half-open rectangle. *)
Definition strictly_on_surface (c : Constellation) (s : star) : Prop :=
  0 <= x s < width c /\ 0 <= y s < height c.

(** The window never reports a negative inner size. *)
Definition event_ok (e : event) : Prop :=
  match e with
  | Resize w h => 0 <= w /\ 0 <= h
  | _ => True
  end.

Definition is_resize (e : event) : bool :=
  match e with
  | Resize _ _ => true
  | _ => false
  end.

(** Distance of a star to the pointer, as [applyMouseInfluence] computes it. *)
Definition pointer_distance (c : Constellation) (s : star) : R :=
  hypot (mouseX (mouse c) - x s) (mouseY (mouse c) - y s).

(** Distance between two stars, as [createLines] computes it. *)
Definition star_distance (a b : star) : R :=
  hypot (x a - x b) (y a - y b).

(** The velocity increment [applyMouseInfluence] adds to a star, and its
    Euclidean magnitude. *)
Definition added_vx (c : Constellation) (s : star) : R :=
  vx (influence_star c s) - vx s.

Definition added_vy (c : Constellation) (s : star) : R :=
  vy (influence_star c s) - vy s.

Definition added_magnitude (c : Constellation) (s : star) : R :=
  hypot (added_vx c s) (added_vy c s).

(** The factor [force] of [applyMouseInfluence] at distance [d]. *)
Definition force_factor (c : Constellation) (d : R) : R :=
  (mouseInfluence (cfg c) - d) / mouseInfluence (cfg c).

(** ** Auxiliary functions of the proofs *)

(** The host after [k] more calls to [Math.random]. *)
Definition advance (k : nat) (h : host) : host :=
  {| draws := k + draws h; handles := handles h |}.

(** The stars after [forEach (update_star c)], position by position: the
    star at index [i] is moved with the [i]-th value drawn. *)
Fixpoint moved_stars (c : Constellation) (l : list star) (k : nat) : list star :=
  match l with
  | [] => []
  | s :: rest => moved_star c s (random k) :: moved_stars c rest (S k)
  end.

(** The instance once [updateStars] has run in a frame started with host
    state [h]. *)
Definition after_update (c : Constellation) (h : host) : Constellation :=
  set_stars c (moved_stars c (stars c) (draws h)).

(** The star pushed by one loop iteration of [createStars] when the entropy
    is read from position [k] on. *)
Definition fresh_star (c : Constellation) (k : nat) : star :=
  {| x := random k * width c;
     y := random (S k) * height c;
     size := random (S (S k))
             * (max (starSize (cfg c)) - min (starSize (cfg c)))
             + min (starSize (cfg c));
     opacity := random (S (S (S k)))
                * (max (opacityRange (cfg c)) - min (opacityRange (cfg c)))
                + min (opacityRange (cfg c));
     vx := (random (S (S (S (S k)))) - 0.5)
           * (max (speed (cfg c)) - min (speed (cfg c)))
           + min (speed (cfg c));
     vy := (random (S (S (S (S (S k))))) - 0.5)
           * (max (speed (cfg c)) - min (speed (cfg c)))
           + min (speed (cfg c));
     originalVx := 0;
     originalVy := 0 |}.

(** The array filled by [n] loop iterations reading from position [k]. *)
Fixpoint fresh_stars (c : Constellation) (n k : nat) : list star :=
  match n with
  | O => []
  | S n' => fresh_star c k :: fresh_stars c n' (6 + k)
  end.

(** The invariant carried along a run. *)
Definition surface_invariant (c : Constellation) : Prop :=
  0 <= width c /\ 0 <= height c /\ Forall (on_surface c) (stars c).

(** The pair of star indices a line connects. *)
Definition endpoints (l : line) : nat * nat := (start l, end_ l).

(** Distance of a velocity component to its baseline. *)
Definition residual_x (s : star) : R := Rabs (vx s - originalVx s).

(** The star at index [i] after [n] frames. *)
Definition star_after (n : nat) (c : Constellation) (h : host) (i : nat)
  : option star :=
  nth_error (stars (fst (frames n c h))) i.

(** The pointer exerts no influence on star [i] in any frame: whenever
    [applyMouseInfluence] looks at it, it is at least [mouseInfluence]
    away. *)
Definition undisturbed (c : Constellation) (h : host) (i : nat) : Prop :=
  forall k s, star_after (S k) c h i = Some s ->
              mouseInfluence (cfg c) <= pointer_distance c s.

(** The baseline velocity of a star. *)
Definition baseline (s : star) : R * R := (originalVx s, originalVy s).

(** ** Sample states of the concrete runs *)

(** An entropy source that always answers 0, the least value
    [Math.random] can return. *)
Definition zero_entropy : nat -> R := fun _ => 0.

Definition fresh_host : host := {| draws := 0; handles := 0 |}.

(** A 100 x 80 window: room for exactly one star. *)
Definition small_window : Constellation := resizeCanvas 100 80 blank.

(** An 800 x 600 window before [createStars]. *)
Definition large_window : Constellation := resizeCanvas 800 600 blank.

Definition star_at (px py pvx pvy : R) : star :=
  {| x := px; y := py; size := 1; opacity := 0.5;
     vx := pvx; vy := pvy; originalVx := 0; originalVy := 0 |}.

(** An 800 x 600 surface holding the given stars, pointer at the origin. *)
Definition surface_with (ss : list star) : Constellation :=
  {| stars := ss; lines := []; mouse := {| mouseX := 0; mouseY := 0 |};
     animationId := None; cfg := default_config;
     width := 800; height := 600 |}.

(** One star far from the pointer, pushed off its baseline along x. *)
Definition lone_state : Constellation := surface_with [star_at 500 500 1 0].

(** Two resting stars on the same spot. *)
Definition twin_state : Constellation :=
  surface_with [star_at 10 10 0 0; star_at 10 10 0 0].

(** One star far from the pointer, resting on its baseline. *)
Definition rest_state : Constellation := surface_with [star_at 500 500 0 0].

Definition near_star : star := star_at 10 0 0 0.
Definition far_star : star := star_at 50 0 0 0.
Definition outer_star : star := star_at 60 0 0 0.
Definition outermost_star : star := star_at 80 0 0 0.

(** ** [draw]

    The calls made on the 2D context, in order.  A template string
    [rgba(255, 255, 255, a)] is the colour [rgba 255 255 255 a]. *)
Inductive colour : Type := rgba (r g b : Z) (a : R).

Inductive command : Type :=
| clearRect (cx cy w h : R)
| beginPath
| moveTo (cx cy : R)
| lineTo (cx cy : R)
| arc (cx cy radius startAngle endAngle : R)
| set_strokeStyle (c : colour)
| set_lineWidth (w : R)
| stroke
| set_fillStyle (c : colour)
| fill.

(** The callback of [this.lines.forEach]. *)
Definition draw_line (c : Constellation) (l : line) : list command :=
  match nth_error (stars c) (start l), nth_error (stars c) (end_ l) with
  | Some a, Some b =>
      [ beginPath; moveTo (x a) (y a); lineTo (x b) (y b);
        set_strokeStyle (rgba 255 255 255 (lineOpacity l));
        set_lineWidth 0.5; stroke ]
  | _, _ => []
  end.

(** The callback of [this.stars.forEach]. *)
Definition draw_star (s : star) : list command :=
  [ beginPath; arc (x s) (y s) (size s) 0 (PI * 2);
    set_fillStyle (rgba 255 255 255 (opacity s)); fill ].

Definition draw (c : Constellation) : list command :=
  clearRect 0 0 (width c) (height c)
  :: flat_map (draw_line c) (lines c) ++ flat_map draw_star (stars c).

(** What a frame started in [c] with host state [h] draws: [animate] calls
    [draw] after [applyMouseInfluence]. *)
Definition frame_picture (c : Constellation) (h : host) : list command :=
  draw (applyMouseInfluence (createLines (fst (updateStars c h)))).

Definition is_stroke (k : command) : bool :=
  match k with stroke => true | _ => false end.

Definition is_fill (k : command) : bool :=
  match k with fill => true | _ => false end.

(** ** Listeners: [bindEvents] and [destroy] *)

Inductive event_target : Type := the_window | the_canvas.

Inductive event_type : Type := resize | mousemove | touchmove | mouseleave.

(** The function objects that occur as listeners: the four arrow
    functions [bindEvents] creates, the method [this.resizeCanvas], and
    [undefined], which is what [this.handleMouseMove] evaluates to. *)
Inductive callback : Type :=
| resize_arrow
| mousemove_arrow
| touchmove_arrow
| mouseleave_arrow
| method_resizeCanvas
| undefined.

Record listener : Type := mkListener {
  on_target : event_target;
  on_type : event_type;
  on_callback : callback
}.

Definition event_target_eqb (a b : event_target) : bool :=
  match a, b with
  | the_window, the_window | the_canvas, the_canvas => true
  | _, _ => false
  end.

Definition event_type_eqb (a b : event_type) : bool :=
  match a, b with
  | resize, resize | mousemove, mousemove
  | touchmove, touchmove | mouseleave, mouseleave => true
  | _, _ => false
  end.

Definition callback_eqb (a b : callback) : bool :=
  match a, b with
  | resize_arrow, resize_arrow | mousemove_arrow, mousemove_arrow
  | touchmove_arrow, touchmove_arrow | mouseleave_arrow, mouseleave_arrow
  | method_resizeCanvas, method_resizeCanvas | undefined, undefined => true
  | _, _ => false
  end.

Definition listener_eqb (a b : listener) : bool :=
  event_target_eqb (on_target a) (on_target b)
  && event_type_eqb (on_type a) (on_type b)
  && callback_eqb (on_callback a) (on_callback b).

(** [target.addEventListener(type, callback)]: a listener already
    registered with the same type and callback is not added again. *)
Definition addEventListener (l : listener) (ls : list listener) : list listener :=
  if existsb (listener_eqb l) ls then ls else ls ++ [l].

(** [target.removeEventListener(type, callback)]: removes the listener
    registered with that very callback, if there is one. *)
Definition removeEventListener (l : listener) (ls : list listener)
  : list listener :=
  filter (fun l' => negb (listener_eqb l l')) ls.

Definition bindEvents (ls : list listener) : list listener :=
  addEventListener (mkListener the_canvas mouseleave mouseleave_arrow)
    (addEventListener (mkListener the_canvas touchmove touchmove_arrow)
       (addEventListener (mkListener the_canvas mousemove mousemove_arrow)
          (addEventListener (mkListener the_window resize resize_arrow) ls))).

Definition destroy (c : Constellation) (ls : list listener)
  : Constellation * list listener :=
  (pause c,
   removeEventListener (mkListener the_canvas mousemove undefined)
     (removeEventListener (mkListener the_window resize method_resizeCanvas) ls)).

(** The listener a host event is delivered to; frames and the calls of
    [pause] and [resume] do not go through listeners. *)
Definition listener_of (e : event) : option listener :=
  match e with
  | Resize _ _ => Some (mkListener the_window resize resize_arrow)
  | MouseMove _ _ => Some (mkListener the_canvas mousemove mousemove_arrow)
  | TouchMove _ _ => Some (mkListener the_canvas touchmove touchmove_arrow)
  | MouseLeave => Some (mkListener the_canvas mouseleave mouseleave_arrow)
  | Frame | Pause | Resume => None
  end.

(** An event reaches the instance only through a registered listener. *)
Definition deliver (ls : list listener) (e : event) (c : Constellation)
  : Host Constellation :=
  match listener_of e with
  | Some l => if existsb (listener_eqb l) ls then handle e c else ret c
  | None => handle e c
  end.

(** ** The caller in [Portfolio] that needs the host *)

(** [Portfolio.handleVisibilityChange], for [document.hidden] and
    [window.constellation] ([None] when the page has no canvas). *)
Definition handleVisibilityChange (hidden : bool)
           (constellation : option Constellation)
  : Host (option Constellation) :=
  if hidden then
    match constellation with
    | Some c => ret (Some (pause c))
    | None => ret None
    end
  else
    match constellation with
    | Some c => c' <- resume c ;; ret (Some c')
    | None => ret None
    end.

(** ** Basic facts on the host monad and the loops *)

Lemma update_star_eq (c : Constellation) (s : star) (h : host) :
  update_star c s h = (moved_star c s (random (draws h)), advance 1 h).
Proof.
  reflexivity.
Qed.

Lemma forEach_update_star (c : Constellation) (l : list star) (h : host) :
  forEach (update_star c) l h
  = (moved_stars c l (draws h), advance (length l) h).
Proof.
  revert h; induction l as [|s rest IH]; intros h.
  - destruct h; reflexivity.
  - cbn [forEach moved_stars length]. unfold bind at 1.
    rewrite update_star_eq. unfold bind at 1. rewrite IH.
    unfold ret, advance; cbn [draws handles].
    now rewrite Nat.add_succ_r.
Qed.

Lemma updateStars_eq (c : Constellation) (h : host) :
  updateStars c h
  = (set_stars c (moved_stars c (stars c) (draws h)),
     advance (length (stars c)) h).
Proof.
  unfold updateStars, bind. now rewrite forEach_update_star.
Qed.

Lemma moved_stars_length (c : Constellation) (l : list star) (k : nat) :
  length (moved_stars c l k) = length l.
Proof.
  revert k; induction l as [|s rest IH]; intros k; cbn; [|rewrite IH]; reflexivity.
Qed.

Lemma moved_stars_nth (c : Constellation) (l : list star) (k i : nat) :
  nth_error (moved_stars c l k) i
  = option_map (fun s => moved_star c s (random (k + i))) (nth_error l i).
Proof.
  revert k i; induction l as [|s rest IH]; intros k [|i]; cbn; try reflexivity.
  - now rewrite Nat.add_0_r.
  - rewrite IH. now rewrite Nat.add_succ_comm.
Qed.

Lemma moved_stars_Forall (P : star -> Prop) (c : Constellation) (l : list star)
      (k : nat) :
  (forall s r, P (moved_star c s r)) -> Forall P (moved_stars c l k).
Proof.
  intros HP; revert k; induction l as [|s rest IH]; intros k; cbn; auto.
Qed.

Lemma animate_eq (c : Constellation) (h : host) :
  animate c h
  = (set_animationId
       (applyMouseInfluence (createLines (after_update c h)))
       (Some (S (handles h))),
     {| draws := length (stars c) + draws h; handles := S (handles h) |}).
Proof.
  unfold animate, bind at 1. rewrite updateStars_eq.
  unfold bind, requestAnimationFrame, ret, advance; cbn [draws handles].
  reflexivity.
Qed.

Lemma animate_stars (c : Constellation) (h : host) :
  stars (fst (animate c h))
  = map (influence_star c) (moved_stars c (stars c) (draws h)).
Proof. rewrite animate_eq. reflexivity. Qed.

Lemma new_star_eq (c : Constellation) (h : host) :
  new_star c h = (fresh_star c (draws h), advance 6 h).
Proof. reflexivity. Qed.

Lemma push_stars_eq (n : nat) (c : Constellation) (acc : list star) (h : host) :
  push_stars n c acc h
  = (acc ++ fresh_stars c n (draws h), advance (6 * n) h).
Proof.
  revert acc h; induction n as [|n IH]; intros acc h.
  - cbn [push_stars fresh_stars]. rewrite app_nil_r.
    destruct h; reflexivity.
  - cbn [push_stars fresh_stars]. unfold bind. rewrite new_star_eq, IH.
    rewrite <- app_assoc. cbn [app]. unfold advance; cbn [draws handles].
    do 2 f_equal. lia.
Qed.

Lemma createStars_eq (c : Constellation) (h : host) :
  createStars c h
  = (set_stars c (map store_original
                      (fresh_stars c (Z.to_nat (numStars c)) (draws h))),
     advance (6 * Z.to_nat (numStars c)) h).
Proof.
  unfold createStars, bind. rewrite push_stars_eq. reflexivity.
Qed.

Lemma fresh_stars_length (c : Constellation) (n k : nat) :
  length (fresh_stars c n k) = n.
Proof.
  revert k; induction n as [|n IH]; intros k; cbn [fresh_stars length];
    [|rewrite IH]; reflexivity.
Qed.

Lemma fresh_stars_Forall (P : star -> Prop) (c : Constellation) (n k : nat) :
  (forall j, P (fresh_star c j)) -> Forall P (fresh_stars c n k).
Proof.
  intros HP; revert k; induction n as [|n IH]; intros k;
    cbn [fresh_stars]; auto.
Qed.

(** ** Position: the wraparound *)

Lemma wrap_bounds (v limit : R) : 0 <= limit -> 0 <= wrap v limit <= limit.
Proof.
  intros Hl. unfold wrap.
  destruct (Rlt_dec v 0) as [Hv|Hv];
    [destruct (Rgt_dec limit limit) | destruct (Rgt_dec v limit)]; lra.
Qed.

Lemma influence_star_x (c : Constellation) (s : star) :
  x (influence_star c s) = x s.
Proof. unfold influence_star. now destruct Rlt_dec. Qed.

Lemma influence_star_y (c : Constellation) (s : star) :
  y (influence_star c s) = y s.
Proof. unfold influence_star. now destruct Rlt_dec. Qed.

Lemma moved_star_on_surface (c : Constellation) (s : star) (r : R) :
  0 <= width c -> 0 <= height c -> on_surface c (moved_star c s r).
Proof.
  intros Hw Hh. unfold on_surface, moved_star; cbn [x y].
  split; now apply wrap_bounds.
Qed.

Lemma fresh_star_on_surface (c : Constellation) (k : nat) :
  0 <= width c -> 0 <= height c ->
  on_surface c (store_original (fresh_star c k)).
Proof.
  intros Hw Hh. unfold on_surface, store_original, fresh_star; cbn [x y].
  pose proof (random_range k) as Hk. pose proof (random_range (S k)) as Hk'.
  split; nra.
Qed.

Lemma animate_surface_invariant (c : Constellation) (h : host) :
  0 <= width c -> 0 <= height c -> surface_invariant (fst (animate c h)).
Proof.
  intros Hw Hh. unfold surface_invariant.
  rewrite animate_stars. rewrite animate_eq; cbn [fst width height
    set_animationId applyMouseInfluence createLines after_update set_stars
    set_lines].
  repeat split; try assumption.
  apply Forall_map.
  apply moved_stars_Forall with (P := fun s => on_surface _ (influence_star c s)).
  intros s r. destruct (moved_star_on_surface c s r Hw Hh) as [Hx Hy].
  unfold on_surface. rewrite influence_star_x, influence_star_y.
  cbn [width height]. auto.
Qed.

Lemma createStars_surface_invariant (c : Constellation) (h : host) :
  0 <= width c -> 0 <= height c -> surface_invariant (fst (createStars c h)).
Proof.
  intros Hw Hh. rewrite createStars_eq. unfold surface_invariant.
  cbn [fst width height stars set_stars]. repeat split; try assumption.
  apply Forall_map.
  apply fresh_stars_Forall with (P := fun s => on_surface _ (store_original s)).
  intros j. apply (fresh_star_on_surface c j Hw Hh).
Qed.

Lemma handle_surface_invariant (e : event) (c : Constellation) (h : host) :
  event_ok e -> surface_invariant c -> surface_invariant (fst (handle e c h)).
Proof.
  intros He (Hw & Hh & Hs). destruct e; cbn [handle].
  - destruct (animationId c).
    + now apply animate_surface_invariant.
    + repeat split; assumption.
  - destruct He as [Hw' Hh']. now apply createStars_surface_invariant.
  - repeat split; assumption.
  - repeat split; assumption.
  - repeat split; assumption.
  - unfold pause, ret. destruct (animationId c); repeat split; assumption.
  - unfold resume. destruct (animationId c).
    + repeat split; assumption.
    + now apply animate_surface_invariant.
Qed.

Lemma run_surface_invariant (es : list event) (c : Constellation) (h : host) :
  Forall event_ok es -> surface_invariant c ->
  surface_invariant (fst (run es c h)).
Proof.
  revert c h; induction es as [|e es IH]; intros c h Hes Hc.
  - exact Hc.
  - inversion Hes as [|? ? He Hes']; subst.
    cbn [run]. unfold bind.
    pose proof (handle_surface_invariant e c h He Hc) as H1.
    destruct (handle e c h) as [c' h']. now apply IH.
Qed.

(** C1 (as the code has it): from construction on, through any frames,
    pointer events and resizes, every star satisfies [0 <= x <= width] and
    [0 <= y <= height].  The upper bounds are closed: a coordinate that
    falls below 0 is set to [width] (or [height]) itself. *)
Theorem position_stays_on_closed_surface
        (w h : R) (es : list event) (h0 : host) :
  0 <= w -> 0 <= h -> Forall event_ok es ->
  let c := fst ((c0 <- new_Constellation w h ;; run es c0) h0) in
  Forall (fun s => 0 <= x s <= width c /\ 0 <= y s <= height c) (stars c).
Proof.
  intros Hw Hh Hes. cbv zeta. unfold new_Constellation, init, bind.
  pose proof (createStars_surface_invariant (resizeCanvas w h blank) h0 Hw Hh)
    as (Hw1 & Hh1 & _).
  destruct (createStars (resizeCanvas w h blank) h0) as [c1 h1].
  cbn [fst] in Hw1, Hh1.
  pose proof (animate_surface_invariant c1 h1 Hw1 Hh1) as Hc2.
  destruct (animate c1 h1) as [c2 h2]. cbn [fst] in Hc2.
  exact (proj2 (proj2 (run_surface_invariant es c2 h2 Hes Hc2))).
Qed.

(** ** Lines: the proximity graph *)

Lemma NoDup_flat_map_disjoint {A B : Type} (f : A -> list B) (l : list A) :
  NoDup l ->
  (forall a, In a l -> NoDup (f a)) ->
  (forall a a' b, In a l -> In a' l -> In b (f a) -> In b (f a') -> a = a') ->
  NoDup (flat_map f l).
Proof.
  induction l as [|a l IH]; intros Hl Hf Hd; cbn [flat_map].
  - constructor.
  - inversion Hl as [|? ? Ha Hl']; subst.
    apply NoDup_app.
    + apply Hf; now left.
    + apply IH; auto.
      * intros a' Ha'. apply Hf; now right.
      * intros a1 a2 b H1 H2. apply Hd; now right.
    + intros b Hb Hb'. apply in_flat_map in Hb' as (a' & Ha' & Hb').
      assert (a = a') by (apply (Hd a a' b); auto; [now left | now right]).
      subst a'. contradiction.
Qed.

Lemma in_line_between (c : Constellation) (i j : nat) (l : line) :
  In l (line_between c i j) <->
  exists a b, nth_error (stars c) i = Some a /\ nth_error (stars c) j = Some b /\
    star_distance a b < maxDistance (cfg c) /\
    l = {| start := i; end_ := j;
           lineOpacity := (maxDistance (cfg c) - star_distance a b)
                          / maxDistance (cfg c) * 0.5;
           distance := star_distance a b |}.
Proof.
  unfold line_between, star_distance.
  destruct (nth_error (stars c) i) as [a|]; [destruct (nth_error (stars c) j) as [b|]|].
  - cbv zeta. destruct (Rlt_dec _ _) as [Hd|Hd]; cbn [In]; split.
    + intros [<-|[]]. exists a, b. repeat split; auto.
    + intros (a' & b' & Ha & Hb & _ & ->).
      injection Ha as <-; injection Hb as <-. now left.
    + intros [].
    + intros (a' & b' & Ha & Hb & Hlt & _).
      injection Ha as <-; injection Hb as <-. contradiction.
  - split; [intros [] | intros (a' & b' & _ & Hb & _); discriminate].
  - split; [intros [] | intros (a' & b' & Ha & _); discriminate].
Qed.

Lemma in_createLines (c : Constellation) (l : line) :
  In l (lines (createLines c)) <->
  exists a b, (start l < end_ l)%nat /\
    nth_error (stars c) (start l) = Some a /\
    nth_error (stars c) (end_ l) = Some b /\
    star_distance a b < maxDistance (cfg c) /\
    lineOpacity l = (maxDistance (cfg c) - star_distance a b)
                    / maxDistance (cfg c) * 0.5 /\
    distance l = star_distance a b.
Proof.
  unfold createLines; cbn [lines set_lines]. rewrite in_flat_map. split.
  - intros (i & Hi & Hl). unfold lines_from in Hl.
    apply in_flat_map in Hl as (j & Hj & Hl).
    apply in_seq in Hj. apply in_line_between in Hl as (a & b & Ha & Hb & Hd & ->).
    exists a, b. cbn [start end_ lineOpacity distance].
    repeat split; auto. lia.
  - intros (a & b & Hlt & Ha & Hb & Hd & Ho & Hdist).
    assert (Hj : (end_ l < length (stars c))%nat)
      by (apply nth_error_Some; congruence).
    exists (start l). split; [apply in_seq; lia|].
    unfold lines_from. apply in_flat_map. exists (end_ l).
    split; [apply in_seq; lia|].
    apply in_line_between. exists a, b. repeat split; auto.
    destruct l as [i j o d]; cbn in *. now subst.
Qed.

Lemma line_between_endpoints (c : Constellation) (i j : nat) (p : nat * nat) :
  In p (map endpoints (line_between c i j)) -> p = (i, j).
Proof.
  intros Hp. apply in_map_iff in Hp as (l & <- & Hl).
  apply in_line_between in Hl as (a & b & _ & _ & _ & ->). reflexivity.
Qed.

Lemma line_between_NoDup (c : Constellation) (i j : nat) :
  NoDup (map endpoints (line_between c i j)).
Proof.
  unfold line_between.
  destruct (nth_error (stars c) i); [destruct (nth_error (stars c) j)|];
    try constructor.
  cbv zeta. destruct (Rlt_dec _ _); cbn [map]; repeat constructor. intros [].
Qed.

Lemma map_flat_map {A B C : Type} (g : B -> C) (f : A -> list B) (l : list A) :
  map g (flat_map f l) = flat_map (fun a => map g (f a)) l.
Proof.
  induction l as [|a l IH]; cbn [flat_map map]; [reflexivity|].
  now rewrite map_app, IH.
Qed.

Lemma createLines_NoDup (c : Constellation) :
  NoDup (map endpoints (lines (createLines c))).
Proof.
  unfold createLines; cbn [lines set_lines]. rewrite map_flat_map.
  apply NoDup_flat_map_disjoint.
  - apply seq_NoDup.
  - intros i _. unfold lines_from. rewrite map_flat_map.
    apply NoDup_flat_map_disjoint.
    + apply seq_NoDup.
    + intros j _. apply line_between_NoDup.
    + intros j j' p _ _ Hp Hp'.
      apply line_between_endpoints in Hp, Hp'. congruence.
  - intros i i' p _ _ Hp Hp'. unfold lines_from in Hp, Hp'.
    rewrite map_flat_map in Hp, Hp'.
    apply in_flat_map in Hp as (j & _ & Hp), Hp' as (j' & _ & Hp').
    apply line_between_endpoints in Hp, Hp'. congruence.
Qed.

(** [applyMouseInfluence], which runs after [createLines] in a frame, moves
    no star, so the lines still describe the stars the frame ends with. *)
Lemma animate_lines (c : Constellation) (h : host) :
  lines (fst (animate c h)) = lines (createLines (after_update c h)).
Proof. rewrite animate_eq. reflexivity. Qed.

Lemma animate_cfg (c : Constellation) (h : host) :
  cfg (fst (animate c h)) = cfg c.
Proof. rewrite animate_eq. reflexivity. Qed.

Lemma animate_nth_star (c : Constellation) (h : host) (i : nat) :
  nth_error (stars (fst (animate c h))) i
  = option_map (influence_star c)
               (nth_error (stars (after_update c h)) i).
Proof.
  rewrite animate_stars. unfold after_update; cbn [stars set_stars].
  apply nth_error_map.
Qed.

Lemma influence_star_distance (c : Constellation) (a b : star) :
  star_distance (influence_star c a) (influence_star c b) = star_distance a b.
Proof.
  unfold star_distance.
  now rewrite !influence_star_x, !influence_star_y.
Qed.

(** A line of the frame, read against the stars the frame ends with. *)
Lemma in_animate_lines (c : Constellation) (h : host) (l : line) :
  let c' := fst (animate c h) in
  In l (lines c') <->
  exists a b, (start l < end_ l)%nat /\
    nth_error (stars c') (start l) = Some a /\
    nth_error (stars c') (end_ l) = Some b /\
    star_distance a b < maxDistance (cfg c') /\
    lineOpacity l = (maxDistance (cfg c') - star_distance a b)
                    / maxDistance (cfg c') * 0.5 /\
    distance l = star_distance a b.
Proof.
  cbv zeta. rewrite animate_lines, animate_cfg, in_createLines.
  rewrite !animate_nth_star.
  change (cfg (after_update c h)) with (cfg c).
  split.
  - intros (a & b & Hlt & Ha & Hb & Hd & Ho & Hdist).
    exists (influence_star c a), (influence_star c b).
    rewrite Ha, Hb, influence_star_distance. cbn [option_map].
    repeat split; auto.
  - intros (a' & b' & Hlt & Ha & Hb & Hd & Ho & Hdist).
    destruct (nth_error (stars (after_update c h)) (start l)) as [a|];
      [|discriminate].
    destruct (nth_error (stars (after_update c h)) (end_ l)) as [b|];
      [|discriminate].
    cbn [option_map] in Ha, Hb. injection Ha as <-. injection Hb as <-.
    rewrite influence_star_distance in Hd, Ho, Hdist.
    exists a, b. repeat split; auto.
Qed.

(** C2: after a frame, the lines are exactly the index pairs [(i, j)] with
    [i < j] of current stars at Euclidean distance strictly below
    [maxDistance], and no pair occurs twice. *)
Theorem lines_are_exactly_the_close_pairs (c : Constellation) (h : host) :
  let c' := fst (animate c h) in
  (forall i j,
     In (i, j) (map endpoints (lines c')) <->
     (i < j)%nat /\
     exists a b, nth_error (stars c') i = Some a /\
                 nth_error (stars c') j = Some b /\
                 star_distance a b < maxDistance (cfg c'))
  /\ NoDup (map endpoints (lines c')).
Proof.
  cbv zeta. split.
  - intros i j. rewrite in_map_iff. split.
    + intros (l & Hl & Hin). apply (in_animate_lines c h) in Hin
        as (a & b & Hlt & Ha & Hb & Hd & _).
      unfold endpoints in Hl. injection Hl as <- <-.
      split; [assumption|]. exists a, b. auto.
    + intros (Hlt & a & b & Ha & Hb & Hd).
      exists {| start := i; end_ := j;
                lineOpacity := (maxDistance (cfg (fst (animate c h)))
                                - star_distance a b)
                               / maxDistance (cfg (fst (animate c h))) * 0.5;
                distance := star_distance a b |}.
      split; [reflexivity|].
      apply (in_animate_lines c h). exists a, b.
      cbn [start end_ lineOpacity distance]. repeat split; auto.
  - rewrite animate_lines. apply createLines_NoDup.
Qed.

(** C3: a line emitted for two stars at distance [d] carries the opacity
    [(maxDistance - d) / maxDistance * 0.5] (and records [d]); [d] is then
    in [0, maxDistance). *)
Theorem line_opacity_formula (c : Constellation) (h : host) (l : line) :
  let c' := fst (animate c h) in
  In l (lines c') ->
  exists a b d,
    nth_error (stars c') (start l) = Some a /\
    nth_error (stars c') (end_ l) = Some b /\
    d = star_distance a b /\ 0 <= d < maxDistance (cfg c') /\
    distance l = d /\
    lineOpacity l = (maxDistance (cfg c') - d) / maxDistance (cfg c') * 0.5.
Proof.
  cbv zeta. intros Hin.
  apply (in_animate_lines c h) in Hin as (a & b & Hlt & Ha & Hb & Hd & Ho & Hdist).
  exists a, b, (star_distance a b). repeat split; auto.
  unfold star_distance, hypot. apply sqrt_pos.
Qed.

(** ** Pointer influence *)

Lemma hypot_nonneg (dx dy : R) : 0 <= hypot dx dy.
Proof. apply sqrt_pos. Qed.

Lemma hypot_scale (dx dy k : R) :
  hypot (dx * k) (dy * k) = Rabs k * hypot dx dy.
Proof.
  unfold hypot.
  replace (dx * k * (dx * k) + dy * k * (dy * k))
    with (Rsqr k * (dx * dx + dy * dy)) by (unfold Rsqr; ring).
  rewrite sqrt_mult_alt by apply Rle_0_sqr.
  now rewrite sqrt_Rsqr_abs.
Qed.

Lemma hypot_zero : hypot 0 0 = 0.
Proof.
  unfold hypot. replace (0 * 0 + 0 * 0) with 0 by ring. apply sqrt_0.
Qed.

Lemma influence_star_outside (c : Constellation) (s : star) :
  mouseInfluence (cfg c) <= pointer_distance c s -> influence_star c s = s.
Proof.
  unfold influence_star, pointer_distance. cbv zeta.
  intros Hd. destruct (Rlt_dec _ _) as [Hlt|_]; [lra | reflexivity].
Qed.

Lemma influence_star_inside (c : Constellation) (s : star) :
  pointer_distance c s < mouseInfluence (cfg c) ->
  vx (influence_star c s)
  = vx s + (mouseX (mouse c) - x s) * mouseForce (cfg c)
           * force_factor c (pointer_distance c s)
  /\ vy (influence_star c s)
     = vy s + (mouseY (mouse c) - y s) * mouseForce (cfg c)
              * force_factor c (pointer_distance c s).
Proof.
  unfold influence_star, pointer_distance, force_factor. cbv zeta.
  intros Hd. destruct (Rlt_dec _ _) as [_|Hn]; [split; reflexivity | contradiction].
Qed.

Lemma added_magnitude_inside (c : Constellation) (s : star) :
  pointer_distance c s < mouseInfluence (cfg c) ->
  added_magnitude c s
  = Rabs (mouseForce (cfg c)) * pointer_distance c s
    * force_factor c (pointer_distance c s).
Proof.
  intros Hd. pose proof (hypot_nonneg (mouseX (mouse c) - x s)
                                      (mouseY (mouse c) - y s)) as Hpos.
  fold (pointer_distance c s) in Hpos.
  destruct (influence_star_inside c s Hd) as [Hx Hy].
  unfold added_magnitude, added_vx, added_vy. rewrite Hx, Hy.
  set (k := mouseForce (cfg c) * force_factor c (pointer_distance c s)).
  replace (vx s + (mouseX (mouse c) - x s) * mouseForce (cfg c)
                  * force_factor c (pointer_distance c s) - vx s)
    with ((mouseX (mouse c) - x s) * k) by (unfold k; ring).
  replace (vy s + (mouseY (mouse c) - y s) * mouseForce (cfg c)
                  * force_factor c (pointer_distance c s) - vy s)
    with ((mouseY (mouse c) - y s) * k) by (unfold k; ring).
  rewrite hypot_scale. fold (pointer_distance c s).
  unfold k. rewrite Rabs_mult.
  rewrite (Rabs_right (force_factor _ _)); [ring|].
  unfold force_factor. apply Rle_ge.
  apply Rmult_le_pos; [lra|].
  left. apply Rinv_0_lt_compat. lra.
Qed.

Lemma force_factor_decreasing (c : Constellation) (d1 d2 : R) :
  0 < mouseInfluence (cfg c) -> d1 < d2 ->
  force_factor c d2 < force_factor c d1.
Proof.
  intros HR Hd. unfold force_factor, Rdiv.
  apply Rmult_lt_compat_r; [now apply Rinv_0_lt_compat | lra].
Qed.

(** C4 (as the code has it): for two stars inside the influence radius at
    pointer distances [d1 < d2], the force factor [(R - d) / R] of the
    closer one is at least that of the farther one, and both are in
    [(0, 1]].  What is added to the velocity is the displacement to the
    pointer times [mouseForce] times that factor, so the size of the
    increment does not follow the factor. *)
Theorem pointer_force_by_distance (c : Constellation) (s1 s2 : star) :
  let d1 := pointer_distance c s1 in
  let d2 := pointer_distance c s2 in
  d1 < d2 -> d2 < mouseInfluence (cfg c) ->
  0 < force_factor c d2
  /\ force_factor c d2 <= force_factor c d1
  /\ force_factor c d1 <= 1
  /\ vx (influence_star c s1)
     = vx s1 + (mouseX (mouse c) - x s1) * mouseForce (cfg c)
               * force_factor c d1
  /\ vy (influence_star c s1)
     = vy s1 + (mouseY (mouse c) - y s1) * mouseForce (cfg c)
               * force_factor c d1
  /\ vx (influence_star c s2)
     = vx s2 + (mouseX (mouse c) - x s2) * mouseForce (cfg c)
               * force_factor c d2
  /\ vy (influence_star c s2)
     = vy s2 + (mouseY (mouse c) - y s2) * mouseForce (cfg c)
               * force_factor c d2.
Proof.
  cbv zeta. intros H12 H2.
  pose proof (hypot_nonneg (mouseX (mouse c) - x s1)
                           (mouseY (mouse c) - y s1)) as Hpos.
  fold (pointer_distance c s1) in Hpos.
  assert (HR : 0 < mouseInfluence (cfg c)) by lra.
  assert (H1 : pointer_distance c s1 < mouseInfluence (cfg c)) by lra.
  destruct (influence_star_inside c s1 H1) as [Hx1 Hy1].
  destruct (influence_star_inside c s2 H2) as [Hx2 Hy2].
  assert (Hinv : 0 < / mouseInfluence (cfg c)) by now apply Rinv_0_lt_compat.
  split; [unfold force_factor; apply Rdiv_lt_0_compat; lra|].
  split; [left; now apply force_factor_decreasing|].
  split.
  { unfold force_factor.
    apply Rmult_le_reg_r with (r := mouseInfluence (cfg c)); [assumption|].
    unfold Rdiv. rewrite Rmult_assoc, Rinv_l by lra. lra. }
  repeat split; assumption.
Qed.

(** C8: a star on the pointer (distance 0) is inside the radius and gets
    the largest force factor, 1; a star at distance at least
    [mouseInfluence] gets no velocity added at all.  Inside the radius the
    velocity added is the displacement times [mouseForce] times the
    factor. *)
Theorem pointer_influence_boundaries (c : Constellation) (s : star) :
  (0 < mouseInfluence (cfg c) -> pointer_distance c s = 0 ->
     pointer_distance c s < mouseInfluence (cfg c)
     /\ force_factor c (pointer_distance c s) = 1
     /\ (forall d, 0 <= d -> force_factor c d <= 1))
  /\ (pointer_distance c s < mouseInfluence (cfg c) ->
      added_vx c s = (mouseX (mouse c) - x s) * mouseForce (cfg c)
                     * force_factor c (pointer_distance c s)
      /\ added_vy c s = (mouseY (mouse c) - y s) * mouseForce (cfg c)
                        * force_factor c (pointer_distance c s))
  /\ (mouseInfluence (cfg c) <= pointer_distance c s ->
      influence_star c s = s /\ added_vx c s = 0 /\ added_vy c s = 0).
Proof.
  split; [|split].
  - intros HR Hzero. split; [lra|]. split.
    + rewrite Hzero. unfold force_factor. field. lra.
    + intros d Hd. unfold force_factor.
      apply Rmult_le_reg_r with (r := mouseInfluence (cfg c)); [assumption|].
      unfold Rdiv. rewrite Rmult_assoc, Rinv_l by lra. lra.
  - intros Hin. destruct (influence_star_inside c s Hin) as [Hx Hy].
    unfold added_vx, added_vy. rewrite Hx, Hy. split; ring.
  - intros Hout. unfold added_vx, added_vy.
    rewrite (influence_star_outside c s Hout). repeat split; ring.
Qed.

(** ** Velocity relaxation *)

Lemma frames_snoc (n : nat) (c : Constellation) (h : host) :
  frames (S n) c h = (let (c', h') := frames n c h in animate c' h').
Proof.
  revert c h; induction n as [|n IH]; intros c h.
  - cbn [frames]. unfold bind, ret. now destruct (animate c h).
  - change (frames (S (S n)) c h)
      with (let (c', h') := animate c h in frames (S n) c' h').
    destruct (animate c h) as [c1 h1] eqn:E1. rewrite IH.
    cbn [frames]. unfold bind. now rewrite E1.
Qed.

Lemma animate_mouse (c : Constellation) (h : host) :
  mouse (fst (animate c h)) = mouse c.
Proof. rewrite animate_eq. reflexivity. Qed.

Lemma frames_mouse_cfg (n : nat) (c : Constellation) (h : host) :
  mouse (fst (frames n c h)) = mouse c /\ cfg (fst (frames n c h)) = cfg c.
Proof.
  induction n as [|n IH].
  - split; reflexivity.
  - rewrite frames_snoc. destruct (frames n c h) as [c' h'].
    cbn [fst] in IH. destruct IH as [Hm Hc].
    now rewrite animate_mouse, animate_cfg.
Qed.

Lemma pointer_distance_ext (c c' : Constellation) (s : star) :
  mouse c' = mouse c -> pointer_distance c' s = pointer_distance c s.
Proof. unfold pointer_distance. now intros ->. Qed.

Lemma pointer_distance_influence (c c' : Constellation) (s : star) :
  pointer_distance c (influence_star c' s) = pointer_distance c s.
Proof.
  unfold pointer_distance. now rewrite influence_star_x, influence_star_y.
Qed.

(** What one frame does to the star at index [i]. *)
Lemma animate_star (c : Constellation) (h : host) (i : nat) :
  nth_error (stars (fst (animate c h))) i
  = option_map (fun s => influence_star c (moved_star c s (random (draws h + i))))
               (nth_error (stars c) i).
Proof.
  rewrite animate_stars, nth_error_map, moved_stars_nth.
  now destruct (nth_error (stars c) i).
Qed.

Lemma star_after_step (n : nat) (c : Constellation) (h : host) (i : nat) :
  star_after (S n) c h i
  = option_map
      (fun s => influence_star (fst (frames n c h))
                  (moved_star (fst (frames n c h)) s
                              (random (draws (snd (frames n c h)) + i))))
      (star_after n c h i).
Proof.
  unfold star_after. rewrite frames_snoc.
  destruct (frames n c h) as [c' h']. cbn [fst snd]. apply animate_star.
Qed.

(** One undisturbed frame scales both residuals by 0.99 and keeps the
    baseline. *)
Lemma relax_step (c : Constellation) (s : star) (r : R) :
  mouseInfluence (cfg c) <= pointer_distance c (moved_star c s r) ->
  let s' := influence_star c (moved_star c s r) in
  originalVx s' = originalVx s /\ originalVy s' = originalVy s
  /\ vx s' - originalVx s' = 0.99 * (vx s - originalVx s)
  /\ vy s' - originalVy s' = 0.99 * (vy s - originalVy s).
Proof.
  intros Hd. cbv zeta. rewrite (influence_star_outside _ _ Hd).
  unfold moved_star; cbn [vx vy originalVx originalVy].
  repeat split; lra.
Qed.

Lemma undisturbed_closed_form (c : Constellation) (h : host) (i : nat)
      (s0 : star) :
  nth_error (stars c) i = Some s0 -> undisturbed c h i ->
  forall n, exists sn,
    star_after n c h i = Some sn
    /\ originalVx sn = originalVx s0 /\ originalVy sn = originalVy s0
    /\ vx sn - originalVx sn = 0.99 ^ n * (vx s0 - originalVx s0)
    /\ vy sn - originalVy sn = 0.99 ^ n * (vy s0 - originalVy s0).
Proof.
  intros H0 Hu n. induction n as [|n (sn & Hn & Hox & Hoy & Hvx & Hvy)].
  - exists s0. cbn [pow]. repeat split; auto; lra.
  - pose proof (star_after_step n c h i) as Hstep. rewrite Hn in Hstep.
    cbn [option_map] in Hstep.
    destruct (frames_mouse_cfg n c h) as [Hm Hc].
    set (cn := fst (frames n c h)) in *.
    set (r := random (draws (snd (frames n c h)) + i)) in *.
    pose proof (Hu n _ Hstep) as Hfar.
    rewrite pointer_distance_influence in Hfar.
    rewrite <- (pointer_distance_ext c cn _ Hm), <- Hc in Hfar.
    destruct (relax_step cn sn r Hfar) as (Hx' & Hy' & Hvx' & Hvy').
    exists (influence_star cn (moved_star cn sn r)). split; [exact Hstep|].
    rewrite Hvx', Hvy', Hx', Hy', Hvx, Hvy, Hox, Hoy. cbn [pow].
    repeat split; ring.
Qed.


(** ** Baseline velocities *)

Lemma moved_star_baseline (c : Constellation) (s : star) (r : R) :
  baseline (moved_star c s r) = baseline s.
Proof. reflexivity. Qed.

Lemma influence_star_baseline (c : Constellation) (s : star) :
  baseline (influence_star c s) = baseline s.
Proof. unfold influence_star. now destruct Rlt_dec. Qed.

Lemma moved_stars_baseline (c : Constellation) (l : list star) (k : nat) :
  map baseline (moved_stars c l k) = map baseline l.
Proof.
  revert k; induction l as [|s rest IH]; intros k; cbn [moved_stars map].
  - reflexivity.
  - now rewrite IH, moved_star_baseline.
Qed.

Lemma updateStars_baseline (c : Constellation) (h : host) :
  map baseline (stars (fst (updateStars c h))) = map baseline (stars c).
Proof.
  rewrite updateStars_eq. cbn [fst stars set_stars].
  apply moved_stars_baseline.
Qed.

Lemma applyMouseInfluence_baseline (c : Constellation) :
  map baseline (stars (applyMouseInfluence c)) = map baseline (stars c).
Proof.
  unfold applyMouseInfluence; cbn [stars set_stars]. rewrite map_map.
  apply map_ext. intros s. apply influence_star_baseline.
Qed.

Lemma animate_baseline (c : Constellation) (h : host) :
  map baseline (stars (fst (animate c h))) = map baseline (stars c).
Proof.
  rewrite animate_stars, map_map.
  rewrite (map_ext _ baseline) by (intros s; apply influence_star_baseline).
  apply moved_stars_baseline.
Qed.

Lemma handle_baseline (e : event) (c : Constellation) (h : host) :
  is_resize e = false ->
  map baseline (stars (fst (handle e c h))) = map baseline (stars c).
Proof.
  destruct e; cbn [is_resize handle]; intros He; try discriminate;
    try reflexivity.
  - destruct (animationId c); [apply animate_baseline | reflexivity].
  - unfold pause. now destruct (animationId c).
  - unfold resume. destruct (animationId c);
      [reflexivity | apply animate_baseline].
Qed.

Lemma store_original_baseline (s : star) :
  baseline (store_original s) = (vx (store_original s), vy (store_original s)).
Proof. reflexivity. Qed.

(** C9: the baseline velocities are written by [createStars] (as the
    velocities the star is created with) and by nothing else: a frame, its
    two mutating substeps, and every pointer, pause or resume event leave
    [originalVx] and [originalVy] of every star as they were. *)
Theorem baseline_velocity_is_never_changed (es : list event)
        (c : Constellation) (h : host) :
  forallb (fun e => negb (is_resize e)) es = true ->
  map baseline (stars (fst (run es c h))) = map baseline (stars c)
  /\ map baseline (stars (fst (updateStars c h))) = map baseline (stars c)
  /\ map baseline (stars (applyMouseInfluence c)) = map baseline (stars c)
  /\ map baseline (stars (fst (animate c h))) = map baseline (stars c)
  /\ Forall (fun s => originalVx s = vx s /\ originalVy s = vy s)
            (stars (fst (createStars c h))).
Proof.
  intros Hes. split; [|split; [|split; [|split]]].
  - revert c h; induction es as [|e es IH]; intros c h; [reflexivity|].
    cbn [forallb] in Hes. apply andb_prop in Hes as [He Hes].
    apply negb_true_iff in He.
    cbn [run]. unfold bind.
    pose proof (handle_baseline e c h He) as H1.
    destruct (handle e c h) as [c' h']. cbn [fst] in H1.
    now rewrite (IH Hes c' h'), H1.
  - apply updateStars_baseline.
  - apply applyMouseInfluence_baseline.
  - apply animate_baseline.
  - rewrite createStars_eq. cbn [fst stars set_stars].
    apply Forall_map, Forall_forall. intros s _. split; reflexivity.
Qed.

(** ** Point-set creation *)

Lemma fresh_stars_ext (c c' : Constellation) (n k : nat) :
  width c' = width c -> height c' = height c -> cfg c' = cfg c ->
  fresh_stars c' n k = fresh_stars c n k.
Proof.
  intros Hw Hh Hc. revert k; induction n as [|n IH]; intros k;
    cbn [fresh_stars]; [reflexivity|].
  rewrite IH. unfold fresh_star. now rewrite Hw, Hh, Hc.
Qed.

Lemma createStars_length (c : Constellation) (h : host) :
  length (stars (fst (createStars c h))) = Z.to_nat (numStars c).
Proof.
  rewrite createStars_eq. cbn [fst stars set_stars].
  now rewrite length_map, fresh_stars_length.
Qed.

(** C6: on a surface of non-negative size and with a positive density,
    [createStars] produces exactly [floor (width * height / starDensity)]
    stars: 60 for an 800 x 600 surface at density 8000, none when the
    quotient is below 1; the result does not depend on the stars held
    before. *)
Theorem createStars_count (c : Constellation) (h : host) :
  0 <= width c -> 0 <= height c -> 0 < starDensity (cfg c) ->
  let c' := fst (createStars c h) in
  Z.of_nat (length (stars c'))
  = Zfloor (width c * height c / starDensity (cfg c))
  /\ (width c * height c / starDensity (cfg c) < 1 -> stars c' = [])
  /\ (width c = 800 -> height c = 600 -> starDensity (cfg c) = 8000 ->
      length (stars c') = 60%nat)
  /\ (forall previous,
        stars (fst (createStars (set_stars c previous) h)) = stars c')
  /\ (forall h',
        length (stars (fst (createStars c' h'))) = length (stars c')).
Proof.
  intros Hw Hh Hd. cbv zeta.
  assert (Hq : 0 <= width c * height c / starDensity (cfg c)).
  { apply Rmult_le_pos; [now apply Rmult_le_pos|].
    left. now apply Rinv_0_lt_compat. }
  assert (Hn : (0 <= numStars c)%Z).
  { unfold numStars. apply (Zfloor_lub 0). exact Hq. }
  split; [|split; [|split; [|split]]].
  - rewrite createStars_length, Z2Nat.id by assumption. reflexivity.
  - intros Hlt.
    assert (Hz : numStars c = 0%Z).
    { unfold numStars. apply Zfloor_eq. cbn. lra. }
    rewrite createStars_eq, Hz. reflexivity.
  - intros Ew Eh Ed.
    assert (Hz : numStars c = 60%Z).
    { unfold numStars. rewrite Ew, Eh, Ed. apply Zfloor_eq. lra. }
    now rewrite createStars_length, Hz.
  - intros previous. rewrite !createStars_eq. cbn [fst stars set_stars].
    unfold numStars; cbn [width height cfg set_stars].
    now rewrite (fresh_stars_ext c (set_stars c previous)).
  - intros h'. rewrite !createStars_length.
    rewrite createStars_eq. reflexivity.
Qed.

(** ** Opacity *)

Lemma clamp_bounds (lo hi v : R) :
  lo <= hi -> lo <= Rmax lo (Rmin hi v) <= hi.
Proof.
  intros Hlh. split.
  - apply Rmax_l.
  - apply Rmax_lub; [assumption | apply Rmin_l].
Qed.

(** C7: with [opacity.min <= opacity.max], after a frame the opacity of
    every star is in [[opacity.min, opacity.max]], whatever it was before:
    the star at index [i] gets its old opacity plus a drift
    [(r - 0.5) * 0.02] with [r] drawn in [[0, 1)], clamped to the range. *)
Theorem opacity_stays_in_range (c : Constellation) (h : host) :
  min (opacityRange (cfg c)) <= max (opacityRange (cfg c)) ->
  let c' := fst (animate c h) in
  Forall (fun s => min (opacityRange (cfg c')) <= opacity s
                   <= max (opacityRange (cfg c'))) (stars c')
  /\ (forall i s, nth_error (stars c) i = Some s ->
        exists s' r,
          nth_error (stars c') i = Some s'
          /\ r = random (draws h + i) /\ 0 <= r < 1
          /\ -0.01 <= (r - 0.5) * 0.02 < 0.01
          /\ opacity s'
             = Rmax (min (opacityRange (cfg c)))
                    (Rmin (max (opacityRange (cfg c)))
                          (opacity s + (r - 0.5) * 0.02))).
Proof.
  intros Hr. cbv zeta. rewrite animate_cfg. split.
  - rewrite animate_stars. apply Forall_map.
    apply moved_stars_Forall
      with (P := fun s => min (opacityRange (cfg c))
                          <= opacity (influence_star c s)
                          <= max (opacityRange (cfg c))).
    intros s r.
    replace (opacity (influence_star c (moved_star c s r)))
      with (opacity (moved_star c s r))
      by (unfold influence_star; now destruct Rlt_dec).
    unfold moved_star; cbn [opacity]. now apply clamp_bounds.
  - intros i s Hs. rewrite animate_star, Hs. cbn [option_map].
    eexists. exists (random (draws h + i)).
    split; [reflexivity|]. split; [reflexivity|].
    pose proof (random_range (draws h + i)) as Hrand.
    split; [exact Hrand|]. split; [lra|].
    unfold influence_star. now destruct Rlt_dec.
Qed.

(** ** Initial velocities *)


(** ** Further facts on [createStars], [updateStars] and the run *)

(** X1: with the default configuration, on a surface at least one pixel
    wide and high, every star [createStars] makes lies in the half-open
    rectangle [[0, width) x [0, height)], has its radius in [[0.5, 2)] and
    its opacity in [[0.2, 0.8]]. *)
Theorem createStars_initial_ranges (c : Constellation) (h : host) :
  1 <= width c -> 1 <= height c -> cfg c = default_config ->
  Forall (fun s =>
            strictly_on_surface c s
            /\ 0.5 <= size s < 2
            /\ 0.2 <= opacity s <= 0.8)
         (stars (fst (createStars c h))).
Proof.
  intros Hw Hh Hc. rewrite createStars_eq. cbn [fst stars set_stars].
  apply Forall_map, fresh_stars_Forall. intros j.
  unfold strictly_on_surface, store_original, fresh_star;
    cbn [x y size opacity]. rewrite Hc.
  cbn [default_config starSize opacityRange min max].
  pose proof (random_range j) as H0.
  pose proof (random_range (S j)) as H1.
  pose proof (random_range (S (S j))) as H2.
  pose proof (random_range (S (S (S j)))) as H3.
  repeat split; nra.
Qed.

Lemma moved_stars_sizes (c : Constellation) (l : list star) (k : nat) :
  map size (moved_stars c l k) = map size l.
Proof.
  revert k; induction l as [|s rest IH]; intros k; cbn [moved_stars map].
  - reflexivity.
  - now rewrite IH.
Qed.

Lemma influence_star_size (c : Constellation) (s : star) :
  size (influence_star c s) = size s.
Proof. unfold influence_star. now destruct Rlt_dec. Qed.

Lemma animate_frame_facts (c : Constellation) (h : host) :
  map size (stars (fst (animate c h))) = map size (stars c)
  /\ width (fst (animate c h)) = width c
  /\ height (fst (animate c h)) = height c.
Proof.
  split; [|rewrite animate_eq; split; reflexivity].
  rewrite animate_stars, map_map.
  rewrite (map_ext _ size) by (intros s; apply influence_star_size).
  apply moved_stars_sizes.
Qed.

Lemma handle_keeps_the_set (e : event) (c : Constellation) (h : host) :
  is_resize e = false ->
  let c' := fst (handle e c h) in
  map size (stars c') = map size (stars c)
  /\ cfg c' = cfg c /\ width c' = width c /\ height c' = height c.
Proof.
  cbv zeta.
  destruct e; cbn [is_resize handle]; intros He; try discriminate;
    try (repeat split; reflexivity).
  - destruct (animationId c); [|repeat split; reflexivity].
    destruct (animate_frame_facts c h) as (Hs & Hw & Hh).
    rewrite animate_cfg. auto.
  - unfold pause. destruct (animationId c); repeat split; reflexivity.
  - unfold resume. destruct (animationId c); [repeat split; reflexivity|].
    destruct (animate_frame_facts c h) as (Hs & Hw & Hh).
    rewrite animate_cfg. auto.
Qed.

(** X2: frames, pointer events, [pause] and [resume] neither add nor drop
    a star and never change a radius, the configuration or the stored
    surface size; only a resize does. *)
Theorem star_set_survives_events (es : list event) (c : Constellation)
        (h : host) :
  forallb (fun e => negb (is_resize e)) es = true ->
  let c' := fst (run es c h) in
  length (stars c') = length (stars c)
  /\ map size (stars c') = map size (stars c)
  /\ cfg c' = cfg c /\ width c' = width c /\ height c' = height c.
Proof.
  cbv zeta. intros Hes.
  assert (Hmain : map size (stars (fst (run es c h))) = map size (stars c)
                  /\ cfg (fst (run es c h)) = cfg c
                  /\ width (fst (run es c h)) = width c
                  /\ height (fst (run es c h)) = height c).
  { revert c h; induction es as [|e es IH]; intros c h.
    - repeat split; reflexivity.
    - cbn [forallb] in Hes. apply andb_prop in Hes as [He Hes].
      apply negb_true_iff in He. cbn [run]. unfold bind.
      pose proof (handle_keeps_the_set e c h He) as H1. cbv zeta in H1.
      destruct (handle e c h) as [c1 h1]. cbn [fst] in H1.
      destruct H1 as (S1 & C1 & W1 & H1).
      destruct (IH Hes c1 h1) as (S2 & C2 & W2 & H2).
      repeat split; congruence. }
  destruct Hmain as (Hs & Hrest). split; [|split; assumption].
  rewrite <- (length_map size (stars c)), <- Hs. now rewrite length_map.
Qed.

(** X3: the wraparound discards the overshoot.  For a non-negative
    limit a coordinate inside [[0, limit]] is kept, one below 0 becomes
    the limit and one above the limit becomes 0; wrapping twice changes
    nothing more.  A star is thus displaced by exactly its velocity unless
    it crosses an edge. *)
Theorem wrap_cases (c : Constellation) (s : star) (r : R) :
  0 <= width c ->
  let x1 := x s + vx s in
  let s' := moved_star c s r in
  (0 <= x1 <= width c -> x s' = x1)
  /\ (x1 < 0 -> x s' = width c)
  /\ (width c < x1 -> x s' = 0)
  /\ wrap (x s') (width c) = x s'.
Proof.
  intros Hw. cbv zeta. unfold moved_star; cbn [x]. unfold wrap.
  repeat split.
  - intros [H0 H1]. destruct (Rlt_dec _ _); [lra|].
    destruct (Rgt_dec _ _); lra.
  - intros H0. destruct (Rlt_dec _ _); [|lra].
    destruct (Rgt_dec _ _); lra.
  - intros H1. destruct (Rlt_dec _ _); [lra|].
    destruct (Rgt_dec _ _); lra.
  - destruct (Rlt_dec (x s + vx s) 0);
      [destruct (Rgt_dec (width c) (width c)) |
       destruct (Rgt_dec (x s + vx s) (width c))];
      repeat (destruct (Rlt_dec _ _) || destruct (Rgt_dec _ _)); lra.
Qed.

Lemma createLines_no_stars (c : Constellation) :
  stars c = [] -> lines (createLines c) = [].
Proof. intros Hs. unfold createLines; cbn [lines set_lines]. now rewrite Hs. Qed.

Lemma animate_empty (c : Constellation) (h : host) :
  stars c = [] ->
  stars (fst (animate c h)) = [] /\ lines (fst (animate c h)) = [].
Proof.
  intros Hs. rewrite animate_stars, animate_lines, Hs. split; [reflexivity|].
  apply createLines_no_stars. unfold after_update; cbn [stars set_stars].
  now rewrite Hs.
Qed.

Lemma handle_empty (e : event) (c : Constellation) (h : host) :
  is_resize e = false -> stars c = [] -> lines c = [] ->
  stars (fst (handle e c h)) = [] /\ lines (fst (handle e c h)) = [].
Proof.
  destruct e; cbn [is_resize handle]; intros He Hs Hl; try discriminate;
    try (split; assumption).
  - destruct (animationId c); [now apply animate_empty | now split].
  - unfold pause. destruct (animationId c); now split.
  - unfold resume. destruct (animationId c);
      [now split | now apply animate_empty].
Qed.

Lemma run_empty (es : list event) (c : Constellation) (h : host) :
  forallb (fun e => negb (is_resize e)) es = true ->
  stars c = [] -> lines c = [] ->
  stars (fst (run es c h)) = [] /\ lines (fst (run es c h)) = []
  /\ width (fst (run es c h)) = width c
  /\ height (fst (run es c h)) = height c.
Proof.
  revert c h; induction es as [|e es IH]; intros c h Hes Hs Hl.
  - repeat split; assumption.
  - cbn [forallb] in Hes. apply andb_prop in Hes as [He Hes].
    apply negb_true_iff in He. cbn [run]. unfold bind.
    pose proof (handle_empty e c h He Hs Hl) as [Hs1 Hl1].
    pose proof (handle_keeps_the_set e c h He) as (_ & _ & W1 & H1).
    destruct (handle e c h) as [c1 h1]. cbn [fst] in *.
    destruct (IH c1 h1 Hes Hs1 Hl1) as (Hs2 & Hl2 & W2 & H2).
    repeat split; congruence.
Qed.

(** X4: in a window whose area is below the star density (in particular a
    zero-area one) the constructor makes no star and no line, and frames,
    pointer events, [pause] and [resume] keep it so: all [draw] does is
    clear the canvas. *)
Theorem tiny_window_stays_empty (w h : R) (es : list event) (h0 : host) :
  w * h < 8000 ->
  forallb (fun e => negb (is_resize e)) es = true ->
  let c := fst ((c0 <- new_Constellation w h ;; run es c0) h0) in
  stars c = [] /\ lines c = [] /\ draw c = [clearRect 0 0 w h].
Proof.
  intros Harea Hes. cbv zeta. unfold new_Constellation, init, bind.
  assert (Hn : Z.to_nat (numStars (resizeCanvas w h blank)) = 0%nat).
  { unfold numStars, resizeCanvas, set_size, blank, default_config;
      cbn [width height cfg starDensity].
    pose proof (Zfloor_bound (w * h / 8000)) as [Hlo _].
    assert (Hlt : IZR (Zfloor (w * h / 8000)) < IZR 1) by lra.
    apply lt_IZR in Hlt.
    destruct (Zfloor (w * h / 8000)); try reflexivity; lia. }
  rewrite createStars_eq, Hn. cbn [fresh_stars map fst snd].
  set (c1 := set_stars (resizeCanvas w h blank) []).
  destruct (animate_empty c1 (advance (6 * 0) h0) eq_refl) as [Hs Hl].
  destruct (animate_frame_facts c1 (advance (6 * 0) h0)) as (_ & Hw & Hh).
  destruct (animate c1 (advance (6 * 0) h0)) as [c2 h2]. cbn [fst] in *.
  destruct (run_empty es c2 h2 Hes Hs Hl) as (Hs' & Hl' & Hw' & Hh').
  split; [exact Hs'|]. split; [exact Hl'|].
  unfold draw. rewrite Hs', Hl', Hw', Hh', Hw, Hh. reflexivity.
Qed.

Lemma flat_map_length_le {A B : Type} (f : A -> list B) (g : A -> nat)
      (l : list A) :
  (forall a, (length (f a) <= g a)%nat) ->
  (length (flat_map f l) <= list_sum (List.map g l))%nat.
Proof.
  intros Hf. induction l as [|a l IH]; simpl.
  - lia.
  - rewrite length_app. specialize (Hf a). lia.
Qed.

Lemma line_between_length (c : Constellation) (i j : nat) :
  (length (line_between c i j) <= 1)%nat.
Proof.
  unfold line_between.
  destruct (nth_error (stars c) i); [destruct (nth_error (stars c) j)|];
    cbn [length]; try lia.
  cbv zeta. destruct (Rlt_dec _ _); cbn [length]; lia.
Qed.

Lemma lines_from_length (c : Constellation) (i : nat) :
  (length (lines_from c i) <= length (stars c) - S i)%nat.
Proof.
  unfold lines_from.
  eapply Nat.le_trans;
    [apply (flat_map_length_le _ (fun _ => 1%nat)); apply line_between_length|].
  assert (Hsum : forall l : list nat,
             list_sum (List.map (fun _ => 1%nat) l) = length l).
  { induction l as [|a l IH]; [reflexivity|].
    change (S (list_sum (List.map (fun _ => 1%nat) l)) = S (length l)).
    now rewrite IH. }
  rewrite Hsum, length_seq. lia.
Qed.

Lemma triangle_sum (m k : nat) :
  (2 * list_sum (List.map (fun i => k + m - S i) (seq k m)) = m * (m - 1))%nat.
Proof.
  revert k; induction m as [|m IH]; intros k; [reflexivity|].
  change (list_sum (List.map (fun i => k + S m - S i) (seq k (S m))))%nat
    with ((k + S m - S k)
          + list_sum (List.map (fun i => k + S m - S i) (seq (S k) m)))%nat.
  assert (Hext : List.map (fun i => k + S m - S i)%nat (seq (S k) m)
                 = List.map (fun i => S k + m - S i)%nat (seq (S k) m)).
  { apply map_ext. intros i. lia. }
  rewrite Hext. specialize (IH (S k)).
  replace (k + S m - S k)%nat with m by lia. nia.
Qed.

Lemma createLines_length (c : Constellation) :
  (2 * length (lines (createLines c))
   <= length (stars c) * (length (stars c) - 1))%nat.
Proof.
  unfold createLines; cbn [lines set_lines].
  pose proof (flat_map_length_le (lines_from c)
                (fun i => (0 + length (stars c) - S i)%nat)
                (seq 0 (length (stars c)))) as Hle.
  pose proof (triangle_sum (length (stars c)) 0) as Hsum.
  assert (Hf : forall i, (length (lines_from c i)
                          <= 0 + length (stars c) - S i)%nat)
    by (intros i; pose proof (lines_from_length c i); lia).
  specialize (Hle Hf). lia.
Qed.

(** X5: a frame over [n] stars leaves at most [n * (n - 1) / 2] lines;
    with fewer than two stars there is none. *)
Theorem lines_count_bound (c : Constellation) (h : host) :
  let c' := fst (animate c h) in
  let n := length (stars c') in
  (2 * length (lines c') <= n * (n - 1))%nat
  /\ ((n <= 1)%nat -> lines c' = []).
Proof.
  cbv zeta.
  assert (Hlen : length (stars (fst (animate c h)))
                 = length (stars (after_update c h))).
  { rewrite animate_stars, length_map. unfold after_update.
    cbn [stars set_stars]. reflexivity. }
  rewrite animate_lines, Hlen.
  pose proof (createLines_length (after_update c h)) as Hb.
  split; [exact Hb|].
  intros Hn. destruct (lines (createLines (after_update c h))) as [|l ls];
    [reflexivity|]. cbn [length] in Hb. nia.
Qed.

(** X6: every line of a frame has an opacity in [(0, 0.5]], which is 0.5
    for two stars on the same spot, and of two lines of the frame the one
    between the closer stars has an opacity at least as large. *)
Theorem line_opacity_range (c : Constellation) (h : host) (l1 l2 : line) :
  let c' := fst (animate c h) in
  In l1 (lines c') -> In l2 (lines c') ->
  0 < lineOpacity l1 <= 0.5
  /\ (distance l1 = 0 -> lineOpacity l1 = 0.5)
  /\ (distance l1 <= distance l2 -> lineOpacity l2 <= lineOpacity l1).
Proof.
  cbv zeta. intros H1 H2.
  apply (in_animate_lines c h) in H1 as (a1 & b1 & _ & _ & _ & Hd1 & Ho1 & Hl1).
  apply (in_animate_lines c h) in H2 as (a2 & b2 & _ & _ & _ & Hd2 & Ho2 & Hl2).
  pose proof (hypot_nonneg (x a1 - x b1) (y a1 - y b1)) as P1.
  pose proof (hypot_nonneg (x a2 - x b2) (y a2 - y b2)) as P2.
  fold (star_distance a1 b1) in P1. fold (star_distance a2 b2) in P2.
  rewrite Ho1, Ho2, Hl1, Hl2.
  set (M := maxDistance (cfg (fst (animate c h)))) in *.
  set (d1 := star_distance a1 b1) in *.
  set (d2 := star_distance a2 b2) in *.
  assert (HM : 0 < M) by lra.
  assert (Hinv : 0 < / M) by now apply Rinv_0_lt_compat.
  assert (Hform : forall d, (M - d) / M * 0.5 = 0.5 - 0.5 * / M * d).
  { intros d. field. lra. }
  rewrite !Hform.
  assert (Hd1' : / M * d1 < 1).
  { apply Rmult_lt_reg_l with M; [assumption|].
    rewrite <- Rmult_assoc, Rinv_r by lra. lra. }
  assert (Hp1 : 0 <= / M * d1) by (apply Rmult_le_pos; lra).
  repeat split; nra.
Qed.


(** X8: a star that starts a run on its baseline velocity and is never
    inside the influence radius keeps exactly that velocity in every
    frame. *)
Theorem undisturbed_star_keeps_its_velocity
        (c : Constellation) (h : host) (i : nat) (s0 : star) :
  nth_error (stars c) i = Some s0 ->
  vx s0 = originalVx s0 -> vy s0 = originalVy s0 ->
  undisturbed c h i ->
  forall n, exists sn,
    star_after n c h i = Some sn /\ vx sn = vx s0 /\ vy sn = vy s0.
Proof.
  intros H0 Hx Hy Hu n.
  destruct (undisturbed_closed_form c h i s0 H0 Hu n)
    as (sn & Hn & Hox & Hoy & Hvx & Hvy).
  exists sn. split; [exact Hn|].
  rewrite Hx, Hy in *. split; nra.
Qed.

(** ** Scheduling: [pause], [resume] and the visibility handler *)

Lemma animate_animationId (c : Constellation) (h : host) :
  animationId (fst (animate c h)) = Some (S (handles h)).
Proof. rewrite animate_eq. reflexivity. Qed.

Lemma moved_stars_ext (c c' : Constellation) (l : list star) (k : nat) :
  width c' = width c -> height c' = height c -> cfg c' = cfg c ->
  moved_stars c' l k = moved_stars c l k.
Proof.
  intros Hw Hh Hc. revert k; induction l as [|s rest IH]; intros k;
    cbn [moved_stars]; [reflexivity|].
  rewrite IH. unfold moved_star. now rewrite Hw, Hh, Hc.
Qed.

Lemma animate_ignores_animationId (c : Constellation) (a : option nat)
      (h : host) :
  animate (set_animationId c a) h = animate c h.
Proof.
  rewrite !animate_eq. unfold after_update. cbn [stars set_animationId].
  rewrite (moved_stars_ext c (set_animationId c a)) by reflexivity.
  reflexivity.
Qed.

Lemma resume_after_pause (c : Constellation) (h : host) :
  resume (pause c) h = animate c h.
Proof.
  unfold resume, pause. destruct (animationId c) eqn:E.
  - cbn [animationId set_animationId]. apply animate_ignores_animationId.
  - now rewrite E.
Qed.

(** X10: [resume] runs one frame at once when the animation is paused and
    does nothing when it is running: a second [resume] changes neither the
    instance nor the host.  [pause] twice is [pause] once, and [pause]
    followed by [resume] yields the stars and lines of a plain frame. *)
Theorem pause_resume_laws (c : Constellation) (h : host) :
  pause (pause c) = pause c
  /\ animationId (pause c) = None
  /\ (let (c1, h1) := resume c h in
      animationId c1 <> None /\ resume c1 h1 = (c1, h1))
  /\ resume (pause c) h = animate c h.
Proof.
  split; [|split; [|split]].
  - unfold pause. destruct (animationId c) eqn:E; cbn [animationId set_animationId];
      [reflexivity | now rewrite E].
  - unfold pause. destruct (animationId c) eqn:E; [reflexivity | exact E].
  - unfold resume at 1. destruct (animationId c) eqn:E.
    + unfold ret. split; [congruence|]. unfold resume. now rewrite E.
    + pose proof (animate_animationId c h) as Ha.
      destruct (animate c h) as [c1 h1]. cbn [fst] in Ha.
      split; [congruence|]. unfold resume. now rewrite Ha.
  - apply resume_after_pause.
Qed.

(** X11: the visibility handler of the page.  Without an instance it does
    nothing; hiding the tab pauses; hiding and showing it again runs
    exactly one frame of the instance at once, whether or not it was
    running before; showing a tab whose instance is running changes
    nothing. *)
Theorem visibility_change_laws (c : Constellation) (h : host) :
  (forall hidden, handleVisibilityChange hidden None h = (None, h))
  /\ handleVisibilityChange true (Some c) h = (Some (pause c), h)
  /\ (let (o1, h1) := handleVisibilityChange true (Some c) h in
      handleVisibilityChange false o1 h1
      = (Some (fst (animate c h)), snd (animate c h)))
  /\ (animationId c <> None ->
      handleVisibilityChange false (Some c) h = (Some c, h)).
Proof.
  split; [|split; [|split]].
  - intros [|]; reflexivity.
  - reflexivity.
  - cbn [handleVisibilityChange]. unfold ret at 1, bind.
    rewrite resume_after_pause.
    now destruct (animate c h).
  - intros Hrun. cbn [handleVisibilityChange]. unfold bind, resume.
    destruct (animationId c); [reflexivity | contradiction].
Qed.

(** ** Listeners and [destroy] *)

Lemma callback_eqb_eq (a b : callback) : callback_eqb a b = true <-> a = b.
Proof. destruct a, b; cbn; split; intros H; congruence. Qed.

Lemma event_type_eqb_eq (a b : event_type) :
  event_type_eqb a b = true <-> a = b.
Proof. destruct a, b; cbn; split; intros H; congruence. Qed.

Lemma event_target_eqb_eq (a b : event_target) :
  event_target_eqb a b = true <-> a = b.
Proof. destruct a, b; cbn; split; intros H; congruence. Qed.

Lemma listener_eqb_eq (a b : listener) : listener_eqb a b = true <-> a = b.
Proof.
  unfold listener_eqb. rewrite !andb_true_iff, event_target_eqb_eq,
    event_type_eqb_eq, callback_eqb_eq.
  destruct a, b; cbn. split.
  - intros [[-> ->] ->]. reflexivity.
  - intros H; injection H as -> -> ->. auto.
Qed.

Lemma existsb_listener (l : listener) (ls : list listener) :
  existsb (listener_eqb l) ls = true <-> In l ls.
Proof.
  rewrite existsb_exists. split.
  - intros (l' & Hin & Heq). apply listener_eqb_eq in Heq. now subst.
  - intros Hin. exists l. split; [assumption | now apply listener_eqb_eq].
Qed.

Lemma in_addEventListener (a l : listener) (ls : list listener) :
  In l (addEventListener a ls) <-> l = a \/ In l ls.
Proof.
  unfold addEventListener. destruct (existsb (listener_eqb a) ls) eqn:E.
  - apply existsb_listener in E. split; [auto|]. intros [->|H]; assumption.
  - rewrite in_app_iff. cbn [In]. split.
    + intros [H|[<-|[]]]; auto.
    + intros [->|H]; auto.
Qed.

Lemma removeEventListener_absent (l : listener) (ls : list listener) :
  ~ In l ls -> removeEventListener l ls = ls.
Proof.
  intros Hn. unfold removeEventListener.
  induction ls as [|a ls IH]; cbn [filter]; [reflexivity|].
  destruct (listener_eqb l a) eqn:E.
  - apply listener_eqb_eq in E. subst a. exfalso. apply Hn. now left.
  - cbn [negb]. rewrite IH; [reflexivity|]. intros H. apply Hn. now right.
Qed.

Lemma in_bindEvents (l : listener) (ls : list listener) :
  In l (bindEvents ls) <->
  l = mkListener the_window resize resize_arrow
  \/ l = mkListener the_canvas mousemove mousemove_arrow
  \/ l = mkListener the_canvas touchmove touchmove_arrow
  \/ l = mkListener the_canvas mouseleave mouseleave_arrow
  \/ In l ls.
Proof. unfold bindEvents. rewrite !in_addEventListener. tauto. Qed.

(** X12: [destroy] stops the frames but unsubscribes nothing.  It asks to
    remove the method [this.resizeCanvas] and the undefined
    [this.handleMouseMove], neither of which [bindEvents] registered, so the
    four listeners stay, and resizes and pointer events keep reaching the
    destroyed instance. *)
Theorem destroy_keeps_every_listener (c : Constellation) (ls0 : list listener) :
  (forall l, In l ls0 ->
             on_callback l <> method_resizeCanvas /\ on_callback l <> undefined) ->
  let (c', ls') := destroy c (bindEvents ls0) in
  c' = pause c /\ animationId c' = None
  /\ ls' = bindEvents ls0
  /\ (forall e h, deliver ls' e c' h = handle e c' h).
Proof.
  intros Hls0. unfold destroy.
  assert (Hcb : forall l, In l (bindEvents ls0) ->
            on_callback l <> method_resizeCanvas /\ on_callback l <> undefined).
  { intros l Hin. apply in_bindEvents in Hin
      as [->|[->|[->|[->|Hin]]]]; try (split; discriminate). now apply Hls0. }
  assert (Hkeep : removeEventListener (mkListener the_canvas mousemove undefined)
            (removeEventListener
               (mkListener the_window resize method_resizeCanvas)
               (bindEvents ls0)) = bindEvents ls0).
  { rewrite (removeEventListener_absent
               (mkListener the_window resize method_resizeCanvas)).
    - apply removeEventListener_absent. intros Hin.
      apply Hcb in Hin as [_ Hin]. now apply Hin.
    - intros Hin. apply Hcb in Hin as [Hin _]. now apply Hin. }
  rewrite Hkeep. split; [reflexivity|]. split.
  { unfold pause. destruct (animationId c) eqn:E; [reflexivity | exact E]. }
  split; [reflexivity|].
  intros e h. unfold deliver.
  destruct (listener_of e) as [l|] eqn:El; [|reflexivity].
  assert (Hin : In l (bindEvents ls0)).
  { apply in_bindEvents. destruct e; cbn [listener_of] in El;
      try discriminate; injection El as <-; tauto. }
  apply existsb_listener in Hin. now rewrite Hin.
Qed.

(** ** [draw] *)

Lemma draw_ignores_animationId (c : Constellation) (a : option nat) :
  draw (set_animationId c a) = draw c.
Proof. reflexivity. Qed.

Lemma filter_flat_map_length {A : Type} (p : command -> bool)
      (f : A -> list command) (l : list A) (n : nat) :
  Forall (fun a => length (filter p (f a)) = n) l ->
  length (filter p (flat_map f l)) = (n * length l)%nat.
Proof.
  induction 1 as [|a l Ha _ IH]; cbn [flat_map length]; [cbn; lia|].
  rewrite filter_app, length_app, Ha, IH. lia.
Qed.

Lemma forallb_flat_map {A : Type} (p : command -> bool)
      (f : A -> list command) (l : list A) :
  (forall a, forallb p (f a) = true) -> forallb p (flat_map f l) = true.
Proof.
  intros Hf. induction l as [|a l IH]; cbn [flat_map]; [reflexivity|].
  now rewrite forallb_app, Hf, IH.
Qed.

Lemma draw_line_no_fill (c : Constellation) (l : line) :
  forallb (fun k => negb (is_fill k)) (draw_line c l) = true.
Proof.
  unfold draw_line.
  destruct (nth_error (stars c) (start l));
    [destruct (nth_error (stars c) (end_ l))|]; reflexivity.
Qed.

(** X13: what a frame draws.  After clearing the canvas it strokes one
    segment per line of the frame, of width 0.5, and only then fills one
    disc per star: no disc is drawn before the last segment. *)
Theorem frame_draws_lines_before_stars (c : Constellation) (h : host) :
  let c' := fst (animate c h) in
  frame_picture c h = draw c'
  /\ length (filter is_stroke (draw c')) = length (lines c')
  /\ length (filter is_fill (draw c')) = length (stars c')
  /\ exists segments discs,
       draw c' = clearRect 0 0 (width c) (height c) :: segments ++ discs
       /\ forallb (fun k => negb (is_fill k)) segments = true
       /\ forallb (fun k => negb (is_stroke k)) discs = true.
Proof.
  cbv zeta.
  assert (Hpic : frame_picture c h = draw (fst (animate c h))).
  { unfold frame_picture. rewrite animate_eq, updateStars_eq. reflexivity. }
  assert (Hvalid : Forall (fun l =>
              length (filter is_stroke (draw_line (fst (animate c h)) l)) = 1%nat
              /\ length (filter is_fill (draw_line (fst (animate c h)) l)) = 0%nat)
            (lines (fst (animate c h)))).
  { apply Forall_forall. intros l Hl.
    apply (in_animate_lines c h) in Hl as (a & b & _ & Ha & Hb & _).
    unfold draw_line. rewrite Ha, Hb. split; reflexivity. }
  assert (Hstars : forall p n,
             (forall s, length (filter p (draw_star s)) = n) ->
             length (filter p (flat_map draw_star (stars (fst (animate c h)))))
             = (n * length (stars (fst (animate c h))))%nat).
  { intros p n Hp. apply filter_flat_map_length.
    apply Forall_forall. intros s _. apply Hp. }
  destruct (animate_frame_facts c h) as (_ & Hw & Hh).
  split; [exact Hpic|]. unfold draw. rewrite Hw, Hh.
  cbn [filter is_stroke is_fill]. rewrite !filter_app, !length_app.
  split; [|split].
  - rewrite (filter_flat_map_length is_stroke _ _ 1)
      by (eapply Forall_impl; [|exact Hvalid]; intros l [H1 _]; exact H1).
    rewrite (Hstars is_stroke 0%nat) by reflexivity. lia.
  - rewrite (filter_flat_map_length is_fill _ _ 0)
      by (eapply Forall_impl; [|exact Hvalid]; intros l [_ H0]; exact H0).
    rewrite (Hstars is_fill 1%nat) by reflexivity. lia.
  - eexists. eexists. split; [reflexivity|]. split.
    + apply forallb_flat_map. intros l. apply draw_line_no_fill.
    + apply forallb_flat_map. intros s. reflexivity.
Qed.

(** ** The pointer after [mouseleave] *)

(** X14: leaving the canvas does not switch the pointer off.  The pointer
    is parked at the canvas origin, no star is touched, and in the frames
    that follow a star closer than [mouseInfluence] to the origin (and not
    on it) still receives a velocity increment, for a non-zero
    [mouseForce]. *)
Theorem pointer_parks_at_the_origin (c : Constellation) (h : host) (s : star) :
  let c' := fst (handle MouseLeave c h) in
  mouse c' = {| mouseX := 0; mouseY := 0 |}
  /\ stars c' = stars c
  /\ pointer_distance c' s = hypot (0 - x s) (0 - y s)
  /\ (mouseForce (cfg c) <> 0 ->
      0 < pointer_distance c' s < mouseInfluence (cfg c) ->
      0 < added_magnitude c' s).
Proof.
  cbv zeta. cbn [handle ret fst].
  split; [reflexivity|]. split; [reflexivity|]. split; [reflexivity|].
  intros Hmf [Hpos Hin].
  set (c' := set_mouse c {| mouseX := 0; mouseY := 0 |}) in *.
  change (mouseInfluence (cfg c)) with (mouseInfluence (cfg c')) in Hin.
  rewrite (added_magnitude_inside c' s Hin).
  assert (Hm : 0 < Rabs (mouseForce (cfg c'))) by (now apply Rabs_pos_lt).
  assert (Hf : 0 < force_factor c' (pointer_distance c' s)).
  { unfold force_factor. apply Rdiv_lt_0_compat; lra. }
  apply Rmult_lt_0_compat; [apply Rmult_lt_0_compat|]; assumption.
Qed.

End Animation.

(** ** Concrete runs *)

Lemma zero_entropy_range : forall n, 0 <= zero_entropy n < 1.
Proof. intros n. unfold zero_entropy. lra. Qed.

Lemma hypot_axis (dx dy : R) : dy = 0 -> hypot dx dy = Rabs dx.
Proof.
  intros ->. unfold hypot.
  replace (dx * dx + 0 * 0) with (Rsqr dx) by (unfold Rsqr; ring).
  apply sqrt_Rsqr_abs.
Qed.

Lemma hypot_ge_second (dx dy : R) : Rabs dy <= hypot dx dy.
Proof.
  unfold hypot. rewrite <- sqrt_Rsqr_abs. apply sqrt_le_1_alt.
  unfold Rsqr. nra.
Qed.

Lemma distance_on_axis (px : R) :
  0 <= px -> pointer_distance blank (star_at px 0 0 0) = px.
Proof.
  intros Hp. unfold pointer_distance, blank, star_at; cbn [mouse mouseX mouseY x y].
  rewrite hypot_axis by ring.
  rewrite Rabs_left1 by lra. ring.
Qed.

Lemma small_window_numStars : numStars small_window = 1%Z.
Proof.
  unfold numStars, small_window, resizeCanvas, set_size, blank, default_config;
    cbn [width height cfg starDensity].
  apply Zfloor_eq. lra.
Qed.

(** C1, counterexample: in a 100 x 80 window with [Math.random] answering
    0, the single star is created at x = 0 with vx = -0.6; the first frame
    moves it to -0.6 and the wraparound sets x to 100, the width itself, so
    [x < width] fails. *)
Lemma position_reaches_the_width :
  let c := fst (new_Constellation zero_entropy 100 80 fresh_host) in
  exists s, In s (stars c)
            /\ x s = width c
            /\ ~ strictly_on_surface c s.
Proof.
  cbv zeta. unfold new_Constellation, init, bind.
  fold small_window. rewrite createStars_eq, small_window_numStars.
  change (Z.to_nat 1) with 1%nat. cbn [fresh_stars map].
  rewrite animate_eq. cbn [fst].
  unfold strictly_on_surface, applyMouseInfluence, createLines, after_update;
    cbn [stars set_stars set_lines set_animationId moved_stars map width height].
  eexists. split; [left; reflexivity|].
  rewrite influence_star_x.
  assert (Hx : x (moved_star (set_stars small_window
                        [store_original (fresh_star zero_entropy small_window
                                                    (draws fresh_host))])
                     (store_original (fresh_star zero_entropy small_window
                                                 (draws fresh_host)))
                     (zero_entropy (draws (advance (6 * 1) fresh_host))))
               = 100).
  { unfold moved_star, store_original, fresh_star, zero_entropy, small_window,
      resizeCanvas, set_size, set_stars, blank, default_config, wrap;
      cbn [x vx width cfg speed min max].
    destruct (Rlt_dec _ _) as [_|Hn]; [|exfalso; apply Hn; lra].
    destruct (Rgt_dec _ _) as [Hg|_]; [lra | reflexivity]. }
  rewrite Hx. unfold small_window, resizeCanvas, set_size; cbn [width].
  split; [reflexivity | lra].
Qed.

(** C1 at a concrete run: construction in a 100 x 80 window, then frames,
    a pointer move and a resize. *)
Lemma position_stays_on_closed_surface_witness :
  let es := [Frame; MouseMove 1 1; Frame; Resize 200 100; Frame] in
  let c := fst ((c0 <- new_Constellation zero_entropy 100 80 ;;
                 run zero_entropy es c0) fresh_host) in
  Forall event_ok es
  /\ Forall (fun s => 0 <= x s <= width c /\ 0 <= y s <= height c) (stars c).
Proof.
  cbv zeta.
  assert (Hes : Forall event_ok
                  [Frame; MouseMove 1 1; Frame; Resize 200 100; Frame]).
  { repeat constructor; cbn; lra. }
  split; [exact Hes|].
  apply (position_stays_on_closed_surface zero_entropy zero_entropy_range
           100 80 _ fresh_host); [lra | lra | exact Hes].
Defined.

(** Two resting stars on the same spot are at distance 0 and get a line of
    opacity 0.5. *)
Lemma twin_line :
  In {| start := 0; end_ := 1; lineOpacity := 0.5; distance := 0 |}
     (lines (fst (animate zero_entropy twin_state fresh_host))).
Proof.
  apply (in_animate_lines zero_entropy twin_state fresh_host).
  cbn [start end_ lineOpacity distance]. rewrite !animate_star.
  cbn [twin_state surface_with stars nth_error option_map].
  do 2 eexists. split; [lia|]. split; [reflexivity|]. split; [reflexivity|].
  rewrite influence_star_distance, animate_cfg.
  assert (Hd : forall r r',
             star_distance
               (moved_star (surface_with [star_at 10 10 0 0; star_at 10 10 0 0])
                           (star_at 10 10 0 0) r)
               (moved_star (surface_with [star_at 10 10 0 0; star_at 10 10 0 0])
                           (star_at 10 10 0 0) r') = 0).
  { intros r r'. unfold star_distance, moved_star; cbn [x y].
    rewrite !Rminus_diag. apply hypot_zero. }
  rewrite Hd. change (maxDistance (cfg twin_state)) with 130.
  repeat split; lra.
Qed.

(** C3 at that line. *)
Lemma line_opacity_formula_witness :
  let c' := fst (animate zero_entropy twin_state fresh_host) in
  let l := {| start := 0; end_ := 1; lineOpacity := 0.5; distance := 0 |} in
  In l (lines c')
  /\ exists a b d,
       nth_error (stars c') (start l) = Some a /\
       nth_error (stars c') (end_ l) = Some b /\
       d = star_distance a b /\ 0 <= d < maxDistance (cfg c') /\
       distance l = d /\
       lineOpacity l = (maxDistance (cfg c') - d) / maxDistance (cfg c') * 0.5.
Proof.
  cbv zeta. split; [exact twin_line|].
  apply (line_opacity_formula zero_entropy twin_state fresh_host).
  exact twin_line.
Defined.

(** C4, counterexample: with the default configuration and the pointer at
    the origin, the star at distance 10 receives an increment of magnitude
    0.00045 and the star at distance 50 one of 0.00125: the closer star is
    pulled less. *)
Lemma closer_star_can_be_pulled_less :
  0 < pointer_distance blank near_star
  /\ pointer_distance blank near_star < pointer_distance blank far_star
  /\ pointer_distance blank far_star < mouseInfluence (cfg blank)
  /\ added_magnitude blank near_star = 0.00045
  /\ added_magnitude blank far_star = 0.00125
  /\ ~ (added_magnitude blank far_star <= added_magnitude blank near_star).
Proof.
  assert (Hn : pointer_distance blank near_star = 10)
    by (apply distance_on_axis; lra).
  assert (Hf : pointer_distance blank far_star = 50)
    by (apply distance_on_axis; lra).
  assert (HR : mouseInfluence (cfg blank) = 100) by reflexivity.
  assert (Hm : Rabs (mouseForce (cfg blank)) = 0.00005).
  { cbn [blank cfg default_config mouseForce]. apply Rabs_right. lra. }
  assert (Mn : added_magnitude blank near_star = 0.00045).
  { rewrite added_magnitude_inside by lra.
    unfold force_factor. rewrite Hn, HR, Hm. lra. }
  assert (Mf : added_magnitude blank far_star = 0.00125).
  { rewrite added_magnitude_inside by lra.
    unfold force_factor. rewrite Hf, HR, Hm. lra. }
  rewrite Hn, Hf, HR, Mn, Mf. repeat split; lra.
Qed.

(** C4 at concrete stars, 60 and 80 away from the pointer. *)
Lemma pointer_force_by_distance_witness :
  let d1 := pointer_distance blank outer_star in
  let d2 := pointer_distance blank outermost_star in
  (d1 < d2 /\ d2 < mouseInfluence (cfg blank))
  /\ 0 < force_factor blank d2
  /\ force_factor blank d2 <= force_factor blank d1
  /\ force_factor blank d1 <= 1.
Proof.
  cbv zeta.
  assert (H1 : pointer_distance blank outer_star = 60)
    by (apply distance_on_axis; lra).
  assert (H2 : pointer_distance blank outermost_star = 80)
    by (apply distance_on_axis; lra).
  assert (HR : mouseInfluence (cfg blank) = 100) by reflexivity.
  assert (Hlt : pointer_distance blank outer_star
                < pointer_distance blank outermost_star) by lra.
  assert (Hin : pointer_distance blank outermost_star
                < mouseInfluence (cfg blank)) by lra.
  split; [split; assumption|].
  destruct (pointer_force_by_distance blank outer_star outermost_star Hlt Hin)
    as (Ha & Hb & Hc & _).
  split; [exact Ha|]. split; [exact Hb | exact Hc].
Defined.

(** C8 at concrete stars: one on the pointer, one 100 away. *)
Lemma pointer_influence_boundaries_witness :
  (pointer_distance blank (star_at 0 0 0 0) = 0
   /\ force_factor blank (pointer_distance blank (star_at 0 0 0 0)) = 1)
  /\ (mouseInfluence (cfg blank) <= pointer_distance blank (star_at 100 0 0 0)
      /\ influence_star blank (star_at 100 0 0 0) = star_at 100 0 0 0
      /\ added_vx blank (star_at 100 0 0 0) = 0
      /\ added_vy blank (star_at 100 0 0 0) = 0).
Proof.
  assert (H0 : pointer_distance blank (star_at 0 0 0 0) = 0)
    by (apply distance_on_axis; lra).
  assert (H1 : pointer_distance blank (star_at 100 0 0 0) = 100)
    by (apply distance_on_axis; lra).
  assert (HR : mouseInfluence (cfg blank) = 100) by reflexivity.
  assert (Hpos : 0 < mouseInfluence (cfg blank)) by lra.
  assert (Hfar : mouseInfluence (cfg blank)
                 <= pointer_distance blank (star_at 100 0 0 0)) by lra.
  split.
  - split; [exact H0|].
    exact (proj1 (proj2 (proj1 (pointer_influence_boundaries
                                  blank (star_at 0 0 0 0)) Hpos H0))).
  - split; [exact Hfar|].
    exact (proj2 (proj2 (pointer_influence_boundaries
                           blank (star_at 100 0 0 0))) Hfar).
Defined.




(** C6 at the 800 x 600 window: 60 stars. *)
Lemma createStars_count_witness :
  let c' := fst (createStars zero_entropy large_window fresh_host) in
  (0 <= width large_window /\ 0 <= height large_window
   /\ 0 < starDensity (cfg large_window))
  /\ Z.of_nat (length (stars c')) = Zfloor (800 * 600 / 8000)
  /\ length (stars c') = 60%nat.
Proof.
  cbv zeta.
  assert (Hw : 0 <= width large_window) by (cbn; lra).
  assert (Hh : 0 <= height large_window) by (cbn; lra).
  assert (Hd : 0 < starDensity (cfg large_window)) by (cbn; lra).
  split; [repeat split; assumption|].
  destruct (createStars_count zero_entropy large_window fresh_host Hw Hh Hd)
    as (Hfloor & _ & Hsixty & _).
  split; [exact Hfloor | apply Hsixty; reflexivity].
Defined.

(** C7 at a concrete frame with the default opacity range. *)
Lemma opacity_stays_in_range_witness :
  let c' := fst (animate zero_entropy twin_state fresh_host) in
  min (opacityRange (cfg twin_state)) <= max (opacityRange (cfg twin_state))
  /\ Forall (fun s => min (opacityRange (cfg c')) <= opacity s
                      <= max (opacityRange (cfg c'))) (stars c').
Proof.
  cbv zeta.
  assert (Hr : min (opacityRange (cfg twin_state))
               <= max (opacityRange (cfg twin_state))) by (cbn; lra).
  split; [exact Hr|].
  exact (proj1 (opacity_stays_in_range zero_entropy zero_entropy_range
                  twin_state fresh_host Hr)).
Defined.

(** C9 at a concrete run of frames, pointer events, pause and resume. *)
Lemma baseline_velocity_is_never_changed_witness :
  let es := [Frame; MouseMove 3 4; TouchMove 5 6; MouseLeave;
             Pause; Frame; Resume; Frame] in
  map baseline (stars (fst (run zero_entropy es lone_state fresh_host)))
  = map baseline (stars lone_state).
Proof.
  cbv zeta.
  refine (proj1 (baseline_velocity_is_never_changed zero_entropy _
                   lone_state fresh_host _)).
  reflexivity.
Defined.


(** ** [Utils.clamp] *)

(** X18: [Utils.clamp] answers a number of [[min, max]] when
    [min <= max], leaves a number of that interval alone and is
    idempotent; for [min > max] it answers [max] whatever the value.  The
    opacity clamping of [updateStars] nests [Math.max] and [Math.min] the
    other way round: it is [Utils.clamp] when [opacity.min <= opacity.max]
    and answers [opacity.min] otherwise. *)
Theorem Utils_clamp_laws (v lo hi : R) :
  (lo <= hi -> lo <= Utils.clamp v lo hi <= hi)
  /\ (lo <= v <= hi -> Utils.clamp v lo hi = v)
  /\ Utils.clamp (Utils.clamp v lo hi) lo hi = Utils.clamp v lo hi
  /\ (hi < lo -> Utils.clamp v lo hi = hi)
  /\ (forall c s r,
        let omin := min (opacityRange (cfg c)) in
        let omax := max (opacityRange (cfg c)) in
        (omin <= omax ->
         opacity (moved_star c s r)
         = Utils.clamp (opacity s + (r - 0.5) * 0.02) omin omax)
        /\ (omax < omin -> opacity (moved_star c s r) = omin)).
Proof.
  unfold Utils.clamp.
  split; [|split; [|split; [|split]]].
  - intros H. unfold Rmin, Rmax. repeat (destruct (Rle_dec _ _)); lra.
  - intros H. unfold Rmin, Rmax. repeat (destruct (Rle_dec _ _)); lra.
  - unfold Rmin, Rmax. repeat (destruct (Rle_dec _ _)); lra.
  - intros H. unfold Rmin, Rmax. repeat (destruct (Rle_dec _ _)); lra.
  - intros c s r. cbv zeta. unfold moved_star; cbn [opacity].
    unfold Rmin, Rmax. split; intros H;
      repeat (destruct (Rle_dec _ _)); lra.
Qed.

(** ** [Utils.throttle] and [Utils.debounce] *)

Section Throttling.

Variable A : Type.

Lemma throttle_step_balanced (e : Utils.throttle_event A) (t : Utils.throttled A) :
  Utils.throttle_balanced t ->
  let t' := Utils.throttle_step e t in
  Utils.throttle_balanced t'
  /\ (length (Utils.applied t') + (if Utils.inThrottle t then 1 else 0)
      <= length (Utils.applied t) + (if Utils.inThrottle t' then 1 else 0)
         + (if Utils.is_throttle_timer e then 1 else 0))%nat.
Proof.
  unfold Utils.throttle_balanced. intros Hb. cbv zeta.
  destruct e as [args|]; cbn [Utils.throttle_step Utils.is_throttle_timer].
  - destruct (Utils.inThrottle t) eqn:E; cbn; rewrite ?E; [split; [assumption|lia]|].
    rewrite length_app. cbn. split; lia.
  - destruct (Utils.timers t) as [|n] eqn:En;
      destruct (Utils.inThrottle t) eqn:E; cbn; rewrite ?E, ?En;
      split; try lia.
Qed.

Lemma throttle_run_balanced (es : list (Utils.throttle_event A))
      (t : Utils.throttled A) :
  Utils.throttle_balanced t ->
  let t' := Utils.throttle_run es t in
  Utils.throttle_balanced t'
  /\ (length (Utils.applied t') + (if Utils.inThrottle t then 1 else 0)
      <= length (Utils.applied t) + (if Utils.inThrottle t' then 1 else 0)
         + length (filter Utils.is_throttle_timer es))%nat.
Proof.
  cbv zeta. revert t; induction es as [|e es IH]; intros t Hb.
  - cbn. split; [assumption | lia].
  - cbn [Utils.throttle_run fold_left filter].
    destruct (throttle_step_balanced e t Hb) as [Hb1 Hc1].
    destruct (IH _ Hb1) as [Hb2 Hc2]. split; [exact Hb2|].
    unfold Utils.throttle_run in Hc2.
    destruct (Utils.is_throttle_timer e); cbn [length]; lia.
Qed.

Lemma throttle_burst_dropped (l : list A) (t : Utils.throttled A) :
  Utils.inThrottle t = true ->
  Utils.throttle_run (List.map Utils.ThrottledCall l) t = t.
Proof.
  intros Hin. induction l as [|a l IH]; [reflexivity|].
  cbn [List.map Utils.throttle_run fold_left Utils.throttle_step].
  rewrite Hin. exact IH.
Qed.

(** X22: the function returned by [Utils.throttle].  After any history
    of calls and timers at most one timer is pending, and it is pending
    exactly while calls are being dropped; [func] has run at most once
    more than timers have fired.  From rest, a burst of calls runs [func]
    on the first argument list only, and the next call after the timer
    runs it again. *)
Theorem throttle_limits_calls (es : list (Utils.throttle_event A))
        (a b : A) (l : list A) :
  let t := Utils.throttle_run es (Utils.throttle A) in
  Utils.throttle_balanced t
  /\ (length (Utils.applied t)
      <= 1 + length (filter Utils.is_throttle_timer es))%nat
  /\ Utils.applied
       (Utils.throttle_run (List.map Utils.ThrottledCall (a :: l))
                     (Utils.throttle A)) = [a]
  /\ Utils.applied
       (Utils.throttle_run (List.map Utils.ThrottledCall (a :: l)
                      ++ [Utils.ThrottleTimer A; Utils.ThrottledCall b])
                     (Utils.throttle A)) = [a; b].
Proof.
  cbv zeta.
  assert (H0 : Utils.throttle_balanced (Utils.throttle A)) by reflexivity.
  destruct (throttle_run_balanced es _ H0) as [Hb Hc]. cbn in Hc.
  split; [exact Hb|]. split.
  { destruct (Utils.inThrottle (Utils.throttle_run es (Utils.throttle A))); lia. }
  assert (Hburst : Utils.throttle_run (List.map Utils.ThrottledCall (a :: l))
                                (Utils.throttle A)
                   = {| Utils.inThrottle := true; Utils.timers := 1;
                        Utils.applied := [a] |}).
  { cbn [List.map Utils.throttle_run fold_left Utils.throttle_step
         Utils.throttle Utils.inThrottle Utils.timers Utils.applied app].
    apply throttle_burst_dropped. reflexivity. }
  split; [now rewrite Hburst|].
  unfold Utils.throttle_run. rewrite fold_left_app.
  fold (Utils.throttle_run (List.map Utils.ThrottledCall (a :: l))
                     (Utils.throttle A)).
  rewrite Hburst. reflexivity.
Qed.

End Throttling.

Section Debouncing.

Variable A : Type.

Lemma debounce_call_step (imm : bool) (a : A) (d : Utils.debounced A) :
  Utils.one_timer d ->
  Utils.debounce_step imm (Utils.DebouncedCall a) d
  = {| Utils.timeout := Some (S (Utils.issued d));
       Utils.live := [(S (Utils.issued d), a)];
       Utils.issued := S (Utils.issued d);
       Utils.invoked :=
         if imm && negb (Utils.is_truthy (Utils.timeout d))
         then Utils.invoked d ++ [a] else Utils.invoked d |}.
Proof.
  intros [[Ht Hl]|(b & Ht & Hl)]; cbn [Utils.debounce_step];
    rewrite Ht, Hl; cbn [Utils.clearTimeout filter fst negb app].
  - reflexivity.
  - now rewrite Nat.eqb_refl.
Qed.

Lemma debounce_fire_step (imm : bool) (h : nat) (a : A) (d : Utils.debounced A) :
  Utils.live d = [(h, a)] ->
  Utils.debounce_step imm (Utils.TimerFires A h) d
  = {| Utils.timeout := None; Utils.live := [];
       Utils.issued := Utils.issued d;
       Utils.invoked := if imm then Utils.invoked d
                        else Utils.invoked d ++ [a] |}.
Proof.
  intros Hl. cbn [Utils.debounce_step]. rewrite Hl.
  cbn [find filter fst]. now rewrite Nat.eqb_refl.
Qed.

Lemma debounce_step_one_timer (imm : bool) (e : Utils.debounce_event A)
      (d : Utils.debounced A) :
  Utils.one_timer d -> Utils.one_timer (Utils.debounce_step imm e d).
Proof.
  intros Hd. destruct e as [a|h].
  - rewrite (debounce_call_step imm a d Hd). right. exists a. split; reflexivity.
  - destruct Hd as [[Ht Hl]|(b & Ht & Hl)].
    + cbn [Utils.debounce_step]. rewrite Hl. cbn [find]. left. now split.
    + destruct (Nat.eqb (Utils.issued d) h) eqn:E.
      * apply Nat.eqb_eq in E. subst h.
        rewrite (debounce_fire_step imm _ b d Hl). left. split; reflexivity.
      * cbn [Utils.debounce_step]. rewrite Hl. cbn [find fst]. rewrite E.
        right. exists b. now split.
Qed.

Lemma debounce_run_one_timer (imm : bool) (es : list (Utils.debounce_event A))
      (d : Utils.debounced A) :
  Utils.one_timer d -> Utils.one_timer (Utils.debounce_run imm es d).
Proof.
  revert d; induction es as [|e es IH]; intros d Hd; [exact Hd|].
  cbn [Utils.debounce_run fold_left]. apply IH.
  now apply debounce_step_one_timer.
Qed.

Lemma debounce_reachable (imm : bool) (es : list (Utils.debounce_event A)) :
  Utils.one_timer (Utils.debounce_run imm es (Utils.debounce A)).
Proof. apply debounce_run_one_timer. left. split; reflexivity. Qed.

(** A burst of calls that follows a call: only the timer is replaced. *)
Lemma debounce_burst_pending (imm : bool) (l : list A) (a : A)
      (d : Utils.debounced A) :
  Utils.one_timer d -> Utils.timeout d <> None ->
  let d1 := Utils.debounce_run imm (List.map Utils.DebouncedCall (l ++ [a])) d in
  Utils.invoked d1 = Utils.invoked d
  /\ Utils.timeout d1 = Some (Utils.issued d1)
  /\ Utils.live d1 = [(Utils.issued d1, a)].
Proof.
  cbv zeta. revert d; induction l as [|b l IH]; intros d Hd Ht.
  - cbn [app List.map Utils.debounce_run fold_left].
    rewrite (debounce_call_step imm a d Hd).
    destruct (Utils.timeout d); [|contradiction].
    cbn. rewrite andb_false_r. repeat split.
  - cbn [app List.map Utils.debounce_run fold_left].
    pose proof (debounce_step_one_timer imm (Utils.DebouncedCall b) d Hd) as Hd1.
    pose proof (debounce_call_step imm b d Hd) as Hs.
    assert (Hinv : Utils.invoked (Utils.debounce_step imm (Utils.DebouncedCall b) d)
                   = Utils.invoked d).
    { rewrite Hs. destruct (Utils.timeout d); [|contradiction].
      cbn. now rewrite andb_false_r. }
    assert (Ht1 : Utils.timeout (Utils.debounce_step imm (Utils.DebouncedCall b) d)
                  <> None) by (rewrite Hs; discriminate).
    destruct (IH _ Hd1 Ht1) as (H1 & H2 & H3).
    unfold Utils.debounce_run in *. rewrite H1, Hinv. repeat split; assumption.
Qed.

(** X23: trailing [Utils.debounce] (the default, [immediate] false).
    After any history at most one timer is live.  A burst of calls runs
    [func] not at all; when the one timer left by the burst fires, [func]
    runs exactly once, on the arguments of the last call, also when the
    history had left a timer pending, which is then cancelled. *)
Theorem debounce_trailing_runs_last_call
        (es : list (Utils.debounce_event A)) (l : list A) (a : A) :
  let d := Utils.debounce_run false es (Utils.debounce A) in
  let d1 := Utils.debounce_run false (List.map Utils.DebouncedCall (l ++ [a])) d in
  Utils.one_timer d
  /\ Utils.invoked d1 = Utils.invoked d
  /\ exists h,
       Utils.timeout d1 = Some h /\ Utils.live d1 = [(h, a)]
       /\ let d2 := Utils.debounce_step false (Utils.TimerFires A h) d1 in
          Utils.invoked d2 = Utils.invoked d ++ [a]
          /\ Utils.timeout d2 = None /\ Utils.live d2 = [].
Proof.
  cbv zeta. set (d := Utils.debounce_run false es (Utils.debounce A)).
  pose proof (debounce_reachable false es) as Hd. fold d in Hd.
  split; [exact Hd|].
  assert (Hmain :
    Utils.invoked (Utils.debounce_run false
                     (List.map Utils.DebouncedCall (l ++ [a])) d)
    = Utils.invoked d
    /\ Utils.live (Utils.debounce_run false
                     (List.map Utils.DebouncedCall (l ++ [a])) d)
       = [(Utils.issued (Utils.debounce_run false
                     (List.map Utils.DebouncedCall (l ++ [a])) d), a)]
    /\ Utils.timeout (Utils.debounce_run false
                     (List.map Utils.DebouncedCall (l ++ [a])) d)
       = Some (Utils.issued (Utils.debounce_run false
                     (List.map Utils.DebouncedCall (l ++ [a])) d))).
  { destruct l as [|b l].
    - cbn [app List.map Utils.debounce_run fold_left].
      rewrite (debounce_call_step false a d Hd). repeat split.
    - cbn [app List.map Utils.debounce_run fold_left].
      pose proof (debounce_step_one_timer false (Utils.DebouncedCall b) d Hd)
        as Hd1.
      pose proof (debounce_call_step false b d Hd) as Hs.
      assert (Ht1 : Utils.timeout (Utils.debounce_step false (Utils.DebouncedCall b) d)
                    <> None) by (rewrite Hs; discriminate).
      destruct (debounce_burst_pending false l a _ Hd1 Ht1) as (H1 & H2 & H3).
      unfold Utils.debounce_run in *. rewrite H1, H2, H3.
      rewrite Hs. repeat split. }
  destruct Hmain as (Hinv & Hlive & Htime).
  split; [exact Hinv|].
  eexists. split; [exact Htime|]. split; [exact Hlive|].
  rewrite (debounce_fire_step false _ a _ Hlive).
  cbn [Utils.invoked Utils.timeout Utils.live]. rewrite Hinv. repeat split.
Qed.

(** X24: leading [Utils.debounce] ([immediate] true).  From rest (no
    timer pending) a burst of calls runs [func] exactly once, at once, on
    the arguments of the first call; the timer that fires afterwards runs
    nothing and puts the closure back to rest. *)
Theorem debounce_leading_runs_first_call
        (es : list (Utils.debounce_event A)) (a : A) (l : list A) :
  let d := Utils.debounce_run true es (Utils.debounce A) in
  Utils.timeout d = None ->
  let d1 := Utils.debounce_run true (List.map Utils.DebouncedCall (a :: l)) d in
  Utils.invoked d1 = Utils.invoked d ++ [a]
  /\ exists h b,
       Utils.timeout d1 = Some h /\ Utils.live d1 = [(h, b)]
       /\ let d2 := Utils.debounce_step true (Utils.TimerFires A h) d1 in
          Utils.invoked d2 = Utils.invoked d ++ [a]
          /\ Utils.timeout d2 = None /\ Utils.live d2 = [].
Proof.
  cbv zeta. set (d := Utils.debounce_run true es (Utils.debounce A)).
  intros Hidle.
  pose proof (debounce_reachable true es) as Hd. fold d in Hd.
  cbn [List.map Utils.debounce_run fold_left].
  pose proof (debounce_step_one_timer true (Utils.DebouncedCall a) d Hd) as Hd1.
  pose proof (debounce_call_step true a d Hd) as Hs.
  rewrite Hidle in Hs. cbn [Utils.is_truthy negb andb] in Hs.
  set (d0 := Utils.debounce_step true (Utils.DebouncedCall a) d) in *.
  assert (Hfin : exists b,
            Utils.invoked (fold_left (fun d e => Utils.debounce_step true e d)
                             (List.map Utils.DebouncedCall l) d0)
            = Utils.invoked d ++ [a]
            /\ Utils.timeout (fold_left (fun d e => Utils.debounce_step true e d)
                             (List.map Utils.DebouncedCall l) d0)
               = Some (Utils.issued (fold_left (fun d e => Utils.debounce_step true e d)
                             (List.map Utils.DebouncedCall l) d0))
            /\ Utils.live (fold_left (fun d e => Utils.debounce_step true e d)
                             (List.map Utils.DebouncedCall l) d0)
               = [(Utils.issued (fold_left (fun d e => Utils.debounce_step true e d)
                             (List.map Utils.DebouncedCall l) d0), b)]).
  { destruct l as [|x l0].
    - exists a. cbn [List.map fold_left]. rewrite Hs. repeat split.
    - destruct (@exists_last A (x :: l0) ltac:(discriminate))
        as (l' & b & ->).
      exists b.
      assert (Ht0 : Utils.timeout d0 <> None) by (rewrite Hs; discriminate).
      destruct (debounce_burst_pending true l' b d0 Hd1 Ht0) as (H1 & H2 & H3).
      unfold Utils.debounce_run in *. rewrite H1, H2, H3, Hs. repeat split. }
  destruct Hfin as (b & Hinv & Htime & Hlive).
  split; [exact Hinv|].
  eexists. exists b. split; [exact Htime|]. split; [exact Hlive|].
  rewrite (debounce_fire_step true _ b _ Hlive).
  cbn [Utils.invoked Utils.timeout Utils.live]. rewrite Hinv. repeat split.
Qed.

End Debouncing.

(** ** The mobile menu *)

Lemma menu_step_elements (e : Portfolio.menu_event) (p : Portfolio.page) :
  Portfolio.has_btn (Portfolio.menu_step e p) = Portfolio.has_btn p
  /\ Portfolio.has_nav (Portfolio.menu_step e p) = Portfolio.has_nav p.
Proof.
  destruct e as [h|h|h|w ht]; cbn [Portfolio.menu_step];
    unfold Portfolio.handleResize, Portfolio.documentClick,
      Portfolio.toggleMobileMenu, Portfolio.closeMobileMenu,
      Portfolio.updateCSSVariables;
    cbn [Portfolio.has_btn Portfolio.has_nav];
    repeat match goal with
           | |- context [if ?b then _ else _] => destruct b eqn:?
           end; cbn [Portfolio.has_btn Portfolio.has_nav]; split; reflexivity.
Qed.

Lemma menu_step_facts (e : Portfolio.menu_event) (p : Portfolio.page) :
  let p' := Portfolio.menu_step e p in
  (Portfolio.has_btn p && Portfolio.has_nav p = false ->
   Portfolio.btn_active p' = Portfolio.btn_active p
   /\ Portfolio.nav_active p' = Portfolio.nav_active p
   /\ Portfolio.overflow p' = Portfolio.overflow p)
  /\ (Portfolio.locked_iff_open p -> Portfolio.locked_iff_open p')
  /\ (Portfolio.btn_active p = Portfolio.nav_active p ->
      Portfolio.btn_active p' = Portfolio.nav_active p').
Proof.
  cbv zeta. unfold Portfolio.locked_iff_open.
  destruct p as [hb hn ba na ov v].
  destruct e as [h|h|h|w ht]; cbn [Portfolio.menu_step];
    unfold Portfolio.handleResize, Portfolio.documentClick,
      Portfolio.toggleMobileMenu, Portfolio.closeMobileMenu,
      Portfolio.updateCSSVariables;
    cbn [Portfolio.has_btn Portfolio.has_nav Portfolio.btn_active
         Portfolio.nav_active Portfolio.overflow];
    try destruct (Rgt_dec w 767);
    destruct hb, hn; try destruct h; destruct ba, na;
    cbn; repeat split; intros; try discriminate; try assumption;
    try reflexivity.
Qed.

(** X25: the mobile menu.  Along any sequence of clicks and resizes: if
    [.mobile-menu-btn] or [.nav] is missing nothing of the menu state ever
    changes; the body scroll lock ([overflow] hidden exactly while [.nav]
    is active) and the agreement of the two [active] classes, once they
    hold, keep holding.  With both elements present a click on the button
    inside the header toggles the menu and sets the lock accordingly,
    while a click on a nav link, a click outside the header, and a resize
    above 767 px each leave it closed and unlocked. *)
Theorem mobile_menu_invariants (es : list Portfolio.menu_event)
        (p : Portfolio.page) :
  let p' := Portfolio.menu_run es p in
  (Portfolio.has_btn p && Portfolio.has_nav p = false ->
   Portfolio.btn_active p' = Portfolio.btn_active p
   /\ Portfolio.nav_active p' = Portfolio.nav_active p
   /\ Portfolio.overflow p' = Portfolio.overflow p)
  /\ (Portfolio.locked_iff_open p -> Portfolio.locked_iff_open p')
  /\ (Portfolio.btn_active p = Portfolio.nav_active p ->
      Portfolio.btn_active p' = Portfolio.nav_active p')
  /\ (Portfolio.has_btn p && Portfolio.has_nav p = true ->
      let opened := Portfolio.menu_step (Portfolio.ClickButton true) p' in
      Portfolio.nav_active opened = negb (Portfolio.nav_active p')
      /\ Portfolio.locked_iff_open opened
      /\ (forall e,
            (exists h, e = Portfolio.ClickNavLink h)
            \/ e = Portfolio.ClickElsewhere false
            \/ (exists w ht, 767 < w /\ e = Portfolio.WindowResized w ht) ->
            Portfolio.nav_active (Portfolio.menu_step e p') = false
            /\ Portfolio.btn_active (Portfolio.menu_step e p') = false
            /\ Portfolio.overflow (Portfolio.menu_step e p') = EmptyString)).
Proof.
  cbv zeta.
  assert (Hrun : forall es p,
    (Portfolio.has_btn (Portfolio.menu_run es p) = Portfolio.has_btn p
     /\ Portfolio.has_nav (Portfolio.menu_run es p) = Portfolio.has_nav p)
    /\ (Portfolio.has_btn p && Portfolio.has_nav p = false ->
        Portfolio.btn_active (Portfolio.menu_run es p) = Portfolio.btn_active p
        /\ Portfolio.nav_active (Portfolio.menu_run es p) = Portfolio.nav_active p
        /\ Portfolio.overflow (Portfolio.menu_run es p) = Portfolio.overflow p)
    /\ (Portfolio.locked_iff_open p ->
        Portfolio.locked_iff_open (Portfolio.menu_run es p))
    /\ (Portfolio.btn_active p = Portfolio.nav_active p ->
        Portfolio.btn_active (Portfolio.menu_run es p)
        = Portfolio.nav_active (Portfolio.menu_run es p))).
  { clear es p. induction es as [|e es IH]; intros p.
    - cbn. repeat split; auto.
    - cbn [Portfolio.menu_run fold_left].
      destruct (menu_step_elements e p) as [Hb Hn].
      destruct (menu_step_facts e p) as (H1 & H2 & H3).
      destruct (IH (Portfolio.menu_step e p)) as ((Hb' & Hn') & I1 & I2 & I3).
      unfold Portfolio.menu_run in *.
      split; [split; congruence|]. split; [|split].
      + intros Hm. destruct (H1 Hm) as (A1 & A2 & A3).
        rewrite Hb, Hn in I1. destruct (I1 Hm) as (B1 & B2 & B3).
        repeat split; congruence.
      + intros Hl. apply I2, H2, Hl.
      + intros Hs. apply I3, H3, Hs. }
  destruct (Hrun es p) as ((Hb & Hn) & H1 & H2 & H3).
  split; [exact H1|]. split; [exact H2|]. split; [exact H3|].
  intros Hboth. rewrite <- Hb, <- Hn in Hboth.
  destruct (Portfolio.menu_run es p) as [hb hn ba na ov v].
  cbn [Portfolio.has_btn Portfolio.has_nav] in Hboth.
  apply andb_prop in Hboth as [-> ->].
  split; [reflexivity|]. split.
  { unfold Portfolio.locked_iff_open. cbn. now destruct na. }
  intros e [[h ->]|[->|(w & ht & Hw & ->)]].
  - destruct h; cbn; repeat split.
  - cbn. repeat split.
  - cbn [Portfolio.menu_step]. unfold Portfolio.handleResize.
    destruct (Rgt_dec w 767) as [_|Hn']; [|exfalso; apply Hn'; lra].
    cbn. repeat split.
Qed.

(** ** Concrete runs of the further facts *)

Lemma far_star_frames (rnd : nat -> R) (h : host) (c0 : Constellation)
      (s0 : star) :
  stars c0 = [s0] -> y s0 = 500 -> vy s0 = 0 -> originalVy s0 = 0 ->
  height c0 = 600 -> mouse c0 = {| mouseX := 0; mouseY := 0 |} ->
  cfg c0 = default_config ->
  forall n,
    height (fst (frames rnd n c0 h)) = 600
    /\ exists s, stars (fst (frames rnd n c0 h)) = [s] /\ y s = 500
                 /\ vy s = 0 /\ originalVy s = 0.
Proof.
  intros Hs0 Hy0 Hvy0 Hoy0 Hh0 Hm0 Hc0 n. induction n as [|n IH].
  - cbn [frames ret fst]. split; [assumption|]. exists s0. auto.
  - destruct (frames_mouse_cfg rnd n c0 h) as [Hm Hc].
    rewrite frames_snoc. destruct (frames rnd n c0 h) as [cn hn].
    cbn [fst] in IH, Hm, Hc. destruct IH as (Hh & s & Hs & Hy & Hvy & Hoy).
    rewrite animate_stars, Hs. cbn [moved_stars List.map].
    set (m := moved_star cn s (rnd (draws hn))).
    assert (Hmy : y m = 500).
    { unfold m, moved_star, wrap; cbn [y]. rewrite Hy, Hvy, Hh.
      destruct (Rlt_dec _ _) as [Hlt|_]; [lra|].
      destruct (Rgt_dec _ _) as [Hgt|_]; lra. }
    assert (Hfar : mouseInfluence (cfg cn) <= pointer_distance cn m).
    { unfold pointer_distance. rewrite Hm, Hm0, Hc, Hc0, Hmy.
      cbn [mouseY default_config mouseInfluence].
      eapply Rle_trans; [|apply hypot_ge_second].
      rewrite Rabs_left by lra. lra. }
    rewrite (influence_star_outside cn m Hfar).
    split; [rewrite animate_eq; exact Hh|].
    exists m. repeat split; auto.
    unfold m, moved_star; cbn [vy]. rewrite Hvy, Hoy. lra.
Qed.

Lemma rest_state_undisturbed (rnd : nat -> R) (h : host) :
  undisturbed rnd rest_state h 0.
Proof.
  intros k s Hs. unfold star_after in Hs.
  destruct (far_star_frames rnd h rest_state (star_at 500 500 0 0)
              eq_refl eq_refl eq_refl eq_refl eq_refl eq_refl eq_refl (S k))
    as (_ & s' & Hs' & Hy & _).
  rewrite Hs' in Hs. cbn [nth_error] in Hs. injection Hs as <-.
  unfold pointer_distance; cbn [rest_state surface_with mouse mouseX mouseY cfg
                                 default_config mouseInfluence].
  rewrite Hy. eapply Rle_trans; [|apply hypot_ge_second].
  rewrite Rabs_left by lra. lra.
Qed.

(** X1 at the 100 x 80 window. *)
Lemma createStars_initial_ranges_witness :
  Forall (fun s => strictly_on_surface small_window s
                   /\ 0.5 <= size s < 2 /\ 0.2 <= opacity s <= 0.8)
         (stars (fst (createStars zero_entropy small_window fresh_host))).
Proof.
  refine (createStars_initial_ranges zero_entropy zero_entropy_range
            small_window fresh_host _ _ eq_refl); cbn; lra.
Defined.

(** X2 at a concrete run over two stars. *)
Lemma star_set_survives_events_witness :
  let es := [Frame; MouseMove 3 4; Pause; Resume; MouseLeave; Frame] in
  let c' := fst (run zero_entropy es twin_state fresh_host) in
  length (stars c') = 2%nat
  /\ List.map size (stars c') = [1; 1]
  /\ cfg c' = default_config /\ width c' = 800 /\ height c' = 600.
Proof.
  cbv zeta.
  refine (star_set_survives_events zero_entropy _ twin_state fresh_host _).
  reflexivity.
Defined.

(** X3 at a star leaving the surface on the left. *)
Lemma wrap_cases_witness :
  let s := star_at 0 10 (-1) 0 in
  0 <= width twin_state
  /\ x (moved_star twin_state s 0) = width twin_state.
Proof.
  cbv zeta.
  assert (Hw : 0 <= width twin_state) by (cbn; lra).
  split; [exact Hw|].
  apply (proj1 (proj2 (wrap_cases twin_state (star_at 0 10 (-1) 0) 0 Hw))).
  cbn. lra.
Defined.

(** X4 at a window of height 0. *)
Lemma tiny_window_stays_empty_witness :
  let es := [Frame; MouseMove 3 4; Frame] in
  let c := fst ((c0 <- new_Constellation zero_entropy 1200 0 ;;
                 run zero_entropy es c0) fresh_host) in
  stars c = [] /\ lines c = [] /\ draw c = [clearRect 0 0 1200 0].
Proof.
  cbv zeta.
  refine (tiny_window_stays_empty zero_entropy 1200 0 _ fresh_host _ _);
    [lra | reflexivity].
Defined.

(** X6 at the line between the two twin stars. *)
Lemma line_opacity_range_witness :
  let l := {| start := 0; end_ := 1; lineOpacity := 0.5; distance := 0 |} in
  0 < lineOpacity l <= 0.5
  /\ (distance l = 0 -> lineOpacity l = 0.5)
  /\ (distance l <= distance l -> lineOpacity l <= lineOpacity l).
Proof.
  exact (line_opacity_range zero_entropy twin_state fresh_host _ _
           twin_line twin_line).
Defined.


(** X8 at the resting star. *)
Lemma undisturbed_star_keeps_its_velocity_witness :
  undisturbed zero_entropy rest_state fresh_host 0
  /\ exists sn,
       star_after zero_entropy 3 rest_state fresh_host 0 = Some sn
       /\ vx sn = 0 /\ vy sn = 0.
Proof.
  split; [exact (rest_state_undisturbed zero_entropy fresh_host)|].
  exact (undisturbed_star_keeps_its_velocity zero_entropy rest_state
           fresh_host 0 (star_at 500 500 0 0) eq_refl eq_refl eq_refl
           (rest_state_undisturbed zero_entropy fresh_host) 3%nat).
Defined.

(** X12 with no other listener on the page. *)
Lemma destroy_keeps_every_listener_witness :
  let (c', ls') := destroy lone_state (bindEvents []) in
  c' = pause lone_state /\ animationId c' = None
  /\ ls' = bindEvents []
  /\ (forall e h, deliver zero_entropy ls' e c' h = handle zero_entropy e c' h).
Proof.
  apply (destroy_keeps_every_listener zero_entropy lone_state []).
  intros l [].
Defined.

(** X24 from a fresh closure. *)
Lemma debounce_leading_runs_first_call_witness :
  Utils.invoked
    (Utils.debounce_run true
       (List.map Utils.DebouncedCall [1%nat; 2%nat; 3%nat])
       (Utils.debounce nat)) = [1%nat].
Proof.
  exact (proj1 (debounce_leading_runs_first_call nat [] 1%nat [2%nat; 3%nat]
                  eq_refl)).
Defined.

(** ** The validators *)

Module ValidateFacts.

Import Validate.

Lemma matches_Class_inv (p : N -> bool) (s : list N) :
  matches (Class p) s <-> exists c, s = [c] /\ p c = true.
Proof.
  split.
  - intros H. inversion H; subst. eauto.
  - intros (c & -> & Hc). now constructor.
Qed.

Lemma matches_Then_inv (r1 r2 : regex) (s : list N) :
  matches (Then r1 r2) s <->
  exists s1 s2, s = s1 ++ s2 /\ matches r1 s1 /\ matches r2 s2.
Proof.
  split.
  - intros H. inversion H; subst. eauto.
  - intros (s1 & s2 & -> & H1 & H2). now constructor.
Qed.

Lemma matches_Or_inv (r1 r2 : regex) (s : list N) :
  matches (Or r1 r2) s <-> matches r1 s \/ matches r2 s.
Proof.
  split.
  - intros H. inversion H; subst; auto.
  - intros [H|H]; [now apply matches_Or_l | now apply matches_Or_r].
Qed.

Lemma matches_Empty_inv (s : list N) : matches Empty s <-> s = [].
Proof.
  split.
  - intros H. now inversion H.
  - intros ->. constructor.
Qed.

Lemma matches_Never_inv (s : list N) : matches Never s <-> False.
Proof. split; [intros H; inversion H | intros []]. Qed.

Lemma nullable_spec (r : regex) : nullable r = true <-> matches r [].
Proof.
  induction r as [| |p|r1 IH1 r2 IH2|r1 IH1 r2 IH2|r IH]; cbn [nullable].
  - rewrite matches_Never_inv. split; [discriminate | intros []].
  - rewrite matches_Empty_inv. split; reflexivity.
  - rewrite matches_Class_inv. split; [discriminate|].
    intros (c & E & _). discriminate.
  - rewrite andb_true_iff, IH1, IH2, matches_Then_inv. split.
    + intros [H1 H2]. exists [], []. auto.
    + intros (s1 & s2 & E & H1 & H2). symmetry in E.
      apply app_eq_nil in E as [-> ->]. now split.
  - now rewrite orb_true_iff, IH1, IH2, matches_Or_inv.
  - split; [constructor | reflexivity].
Qed.

Lemma star_cons (r : regex) (c : N) (s : list N) :
  matches (Star r) (c :: s) ->
  exists s1 s2, s = s1 ++ s2 /\ matches r (c :: s1) /\ matches (Star r) s2.
Proof.
  intros H. remember (Star r) as q eqn:Eq. remember (c :: s) as t eqn:Et.
  revert s Et.
  induction H as [| | | | | |r' s1 s2 H1 _ H2 IH2]; intros s0 Et;
    try discriminate.
  injection Eq as ->.
  destruct s1 as [|c1 s1].
  - cbn [app] in Et. now apply IH2.
  - cbn [app] in Et. injection Et as -> <-.
    exists s1, s2. auto.
Qed.

Lemma deriv_spec (c : N) (r : regex) (s : list N) :
  matches (deriv c r) s <-> matches r (c :: s).
Proof.
  revert s.
  induction r as [| |p|r1 IH1 r2 IH2|r1 IH1 r2 IH2|r IH]; intros s;
    cbn [deriv].
  - now rewrite !matches_Never_inv.
  - rewrite matches_Never_inv, matches_Empty_inv. split; [intros [] | discriminate].
  - rewrite matches_Class_inv. destruct (p c) eqn:E.
    + rewrite matches_Empty_inv. split.
      * intros ->. eauto.
      * intros (c' & Ec & _). now injection Ec.
    + rewrite matches_Never_inv. split; [intros []|].
      intros (c' & Ec & Hc). injection Ec as <- _. congruence.
  - assert (Hthen : matches (Then (deriv c r1) r2) s <->
                    exists s1 s2, s = s1 ++ s2 /\ matches r1 (c :: s1)
                                  /\ matches r2 s2).
    { rewrite matches_Then_inv. split.
      - intros (s1 & s2 & -> & H1 & H2). exists s1, s2. rewrite <- IH1. auto.
      - intros (s1 & s2 & -> & H1 & H2). exists s1, s2. rewrite IH1. auto. }
    assert (Hsplit : matches (Then r1 r2) (c :: s) <->
                     (exists s1 s2, s = s1 ++ s2 /\ matches r1 (c :: s1)
                                    /\ matches r2 s2)
                     \/ (matches r1 [] /\ matches r2 (c :: s))).
    { rewrite matches_Then_inv. split.
      - intros (s1 & s2 & E & H1 & H2). destruct s1 as [|c1 s1].
        + cbn [app] in E. subst s2. right. now split.
        + cbn [app] in E. injection E as -> ->. left. exists s1, s2. auto.
      - intros [(s1 & s2 & -> & H1 & H2)|[H1 H2]].
        + exists (c :: s1), s2. auto.
        + exists [], (c :: s). auto. }
    rewrite Hsplit. destruct (nullable r1) eqn:En.
    + apply nullable_spec in En.
      rewrite matches_Or_inv, Hthen, IH2. tauto.
    + rewrite Hthen. split; [auto|]. intros [H|[H _]]; [assumption|].
      apply nullable_spec in H. congruence.
  - now rewrite !matches_Or_inv, IH1, IH2.
  - rewrite matches_Then_inv. split.
    + intros (s1 & s2 & -> & H1 & H2).
      apply IH in H1. exact (matches_Star_app _ (c :: s1) s2 H1 H2).
    + intros H. apply star_cons in H as (s1 & s2 & -> & H1 & H2).
      exists s1, s2. rewrite IH. auto.
Qed.

Lemma test_spec (r : regex) (s : list N) : test r s = true <-> matches r s.
Proof.
  unfold test. revert r; induction s as [|c s IH]; intros r; cbn [fold_left].
  - apply nullable_spec.
  - rewrite IH. apply deriv_spec.
Qed.

(** Languages of the pieces the two patterns are made of. *)

Lemma matches_Star_Class (p : N -> bool) (s : list N) :
  matches (Star (Class p)) s <-> forallb p s = true.
Proof.
  split.
  - intros H. remember (Star (Class p)) as q eqn:Eq.
    induction H as [| | | | | |r s1 s2 H1 _ H2 IH2]; try discriminate.
    + reflexivity.
    + injection Eq as ->. apply matches_Class_inv in H1 as (c & -> & Hc).
      cbn [app forallb]. rewrite IH2 by reflexivity. now rewrite Hc.
  - induction s as [|c s IH]; cbn [forallb]; intros H.
    + constructor.
    + apply andb_prop in H as [Hc Hs].
      exact (matches_Star_app _ [c] s (matches_Class p c Hc) (IH Hs)).
Qed.

Lemma matches_Plus_Class (p : N -> bool) (s : list N) :
  matches (Plus (Class p)) s <-> s <> [] /\ forallb p s = true.
Proof.
  unfold Plus. rewrite matches_Then_inv. split.
  - intros (s1 & s2 & -> & H1 & H2).
    apply matches_Class_inv in H1 as (c & -> & Hc).
    apply matches_Star_Class in H2. cbn [app forallb].
    split; [discriminate | now rewrite Hc, H2].
  - intros [Hne H]. destruct s as [|c s]; [contradiction|].
    cbn [forallb] in H. apply andb_prop in H as [Hc Hs].
    exists [c], s. split; [reflexivity|].
    split; [now constructor | now apply matches_Star_Class].
Qed.

Lemma matches_Opt (r : regex) (s : list N) :
  matches (Opt r) s <-> matches r s \/ s = [].
Proof.
  unfold Opt. split.
  - rewrite matches_Or_inv, matches_Empty_inv. tauto.
  - rewrite matches_Or_inv, matches_Empty_inv. tauto.
Qed.

Lemma matches_Upto_Class (n : nat) (p : N -> bool) (s : list N) :
  matches (Upto n (Class p)) s <->
  (length s <= n)%nat /\ forallb p s = true.
Proof.
  revert s; induction n as [|n IH]; intros s; cbn [Upto].
  - split.
    + intros H. apply matches_Empty_inv in H. subst.
      split; [cbn; lia | reflexivity].
    + intros [Hl _]. destruct s; [constructor | cbn in Hl; lia].
  - rewrite matches_Opt, matches_Then_inv. split.
    + intros [(s1 & s2 & -> & H1 & H2)| ->].
      * apply matches_Class_inv in H1 as (c & -> & Hc).
        apply IH in H2 as [Hl Hp]. cbn [app length forallb].
        split; [lia | now rewrite Hc, Hp].
      * split; [cbn; lia | reflexivity].
    + intros [Hl Hp]. destruct s as [|c s]; [now right|].
      cbn [length forallb] in Hl, Hp. apply andb_prop in Hp as [Hc Hs].
      left. exists [c], s. split; [reflexivity|].
      split; [now constructor | apply IH; split; [lia | assumption]].
Qed.

Lemma email_shape (s : list N) :
  email s = true <->
  exists name host tld,
    s = name ++ at_sign :: host ++ dot :: tld
    /\ name <> [] /\ host <> [] /\ tld <> []
    /\ forallb is_address_char name = true
    /\ forallb is_address_char host = true
    /\ forallb is_address_char tld = true.
Proof.
  unfold email. rewrite test_spec. unfold email_regex.
  rewrite matches_Then_inv. split.
  - intros (name & s2 & -> & Hname & H2).
    apply matches_Then_inv in H2 as (a & s3 & -> & Ha & H3).
    apply matches_Then_inv in H3 as (host & s4 & -> & Hhost & H4).
    apply matches_Then_inv in H4 as (d & tld & -> & Hd & Htld).
    apply matches_Class_inv in Ha as (ca & -> & Hca).
    apply matches_Class_inv in Hd as (cd & -> & Hcd).
    apply N.eqb_eq in Hca, Hcd. subst ca cd.
    apply matches_Plus_Class in Hname as [? ?], Hhost as [? ?], Htld as [? ?].
    exists name, host, tld. cbn [app]. repeat split; assumption.
  - intros (name & host & tld & -> & Hn & Hh & Ht & Pn & Ph & Pt).
    exists name, (at_sign :: host ++ dot :: tld). split; [reflexivity|].
    split; [now apply matches_Plus_Class|].
    apply matches_Then_inv. exists [at_sign], (host ++ dot :: tld).
    split; [reflexivity|]. split; [constructor; apply N.eqb_refl|].
    apply matches_Then_inv. exists host, (dot :: tld).
    split; [reflexivity|]. split; [now apply matches_Plus_Class|].
    apply matches_Then_inv. exists [dot], tld.
    split; [reflexivity|]. split; [constructor; apply N.eqb_refl|].
    now apply matches_Plus_Class.
Qed.

Lemma address_chars_facts (s : list N) :
  forallb is_address_char s = true ->
  count_occ N.eq_dec s at_sign = 0%nat
  /\ forallb (fun c => negb (is_space c)) s = true.
Proof.
  induction s as [|c s IH]; cbn [forallb count_occ]; intros H;
    [split; reflexivity|].
  apply andb_prop in H as [Hc Hs]. destruct (IH Hs) as [I1 I2].
  unfold is_address_char in Hc. apply negb_true_iff in Hc.
  apply orb_false_iff in Hc as [Hsp Hat].
  apply N.eqb_neq in Hat.
  destruct (N.eq_dec c at_sign) as [E|_]; [contradiction|].
  rewrite Hsp, I2. split; [exact I1 | reflexivity].
Qed.

(** X26: [Utils.validate.email] accepts exactly the strings
    [name@host.tld] whose three parts are non-empty and free of white
    space and of [@] (dots are allowed inside every part).  An accepted
    string therefore has at least five code units, exactly one [@] and no
    white space anywhere. *)
Theorem email_accepts_name_at_host_dot_tld (s : list N) :
  (email s = true <->
   exists name host tld,
     s = name ++ at_sign :: host ++ dot :: tld
     /\ name <> [] /\ host <> [] /\ tld <> []
     /\ forallb is_address_char name = true
     /\ forallb is_address_char host = true
     /\ forallb is_address_char tld = true)
  /\ (email s = true ->
      (5 <= length s)%nat
      /\ count_occ N.eq_dec s at_sign = 1%nat
      /\ forallb (fun c => negb (is_space c)) s = true).
Proof.
  split; [apply email_shape|].
  intros H. apply email_shape in H
    as (name & host & tld & -> & Hn & Hh & Ht & Pn & Ph & Pt).
  destruct (address_chars_facts name Pn) as [Cn Sn].
  destruct (address_chars_facts host Ph) as [Ch Sh].
  destruct (address_chars_facts tld Pt) as [Ct St].
  split; [|split].
  - rewrite length_app. cbn [length]. rewrite length_app. cbn [length].
    destruct name; [contradiction|]. destruct host; [contradiction|].
    destruct tld; [contradiction|]. cbn [length]. lia.
  - rewrite count_occ_app. cbn [count_occ].
    destruct (N.eq_dec at_sign at_sign) as [_|Hne]; [|contradiction].
    rewrite count_occ_app. cbn [count_occ].
    destruct (N.eq_dec dot at_sign) as [E|_]; [discriminate|]. lia.
  - rewrite forallb_app. cbn [forallb]. rewrite forallb_app. cbn [forallb].
    rewrite Sn, Sh, St. reflexivity.
Qed.

Lemma strip_spaces_app (s1 s2 : list N) :
  strip_spaces (s1 ++ s2) = strip_spaces s1 ++ strip_spaces s2.
Proof. unfold strip_spaces. apply filter_app. Qed.

Lemma phone_shape (t : list N) :
  test phone_regex t = true <->
  exists sign d ds,
    t = sign ++ d :: ds
    /\ (sign = [] \/ sign = [plus_sign])
    /\ is_nonzero_digit d = true
    /\ forallb is_digit ds = true /\ (length ds <= 15)%nat.
Proof.
  rewrite test_spec. unfold phone_regex. rewrite matches_Then_inv. split.
  - intros (sign & s2 & -> & Hsign & H2).
    apply matches_Then_inv in H2 as (d1 & ds & -> & Hd & Hds).
    apply matches_Class_inv in Hd as (d & -> & Hd).
    apply matches_Upto_Class in Hds as [Hl Hp].
    apply matches_Opt in Hsign.
    exists sign, d, ds. split; [reflexivity|]. split.
    + destruct Hsign as [H|H]; [|now left].
      apply matches_Class_inv in H as (c & -> & Hc).
      apply N.eqb_eq in Hc. subst c. now right.
    + auto.
  - intros (sign & d & ds & -> & Hsign & Hd & Hp & Hl).
    exists sign, (d :: ds). split; [reflexivity|]. split.
    + apply matches_Opt. destruct Hsign as [->| ->]; [now right|].
      left. constructor. apply N.eqb_refl.
    + apply matches_Then_inv. exists [d], ds. split; [reflexivity|].
      split; [now constructor|]. apply matches_Upto_Class. now split.
Qed.

(** X27: [Utils.validate.phone] ignores white space wherever it stands,
    and accepts exactly the strings that, once stripped of it, are an
    optional [+] followed by 1 to 16 decimal digits of which the first is
    not 0.  No accepted string has more than 17 units besides white
    space. *)
Theorem phone_accepts_international_numbers (s s1 s2 : list N) (w : N) :
  (phone s = true <->
   exists sign d ds,
     strip_spaces s = sign ++ d :: ds
     /\ (sign = [] \/ sign = [plus_sign])
     /\ is_nonzero_digit d = true
     /\ forallb is_digit ds = true /\ (length ds <= 15)%nat)
  /\ (phone s = true -> (1 <= length (strip_spaces s) <= 17)%nat)
  /\ (is_space w = true -> phone (s1 ++ w :: s2) = phone (s1 ++ s2)).
Proof.
  split; [apply phone_shape|]. split.
  - intros H. apply phone_shape in H as (sign & d & ds & -> & Hs & _ & _ & Hl).
    rewrite length_app. cbn [length].
    destruct Hs as [-> | ->]; cbn [length]; lia.
  - intros Hw. unfold phone. rewrite !strip_spaces_app.
    unfold strip_spaces at 2. cbn [filter]. rewrite Hw. reflexivity.
Qed.

(** X26 at [a@b.c], and X27 at [+55 11 9] (with two spaces). *)
Lemma validators_accept_plain_inputs :
  email [97; 64; 98; 46; 99]%N = true
  /\ email [97; 64; 98]%N = false
  /\ phone [43; 53; 53; 32; 49; 49; 32; 57]%N = true
  /\ phone [48; 49]%N = false.
Proof. repeat split; reflexivity. Qed.

End ValidateFacts.

(** ** [Utils.storage] *)

Section StorageFacts.

Variable V : Type.
Variable stringify : V -> option string.
Variable parse : string -> option V.
Variable fits : (string -> option string) -> string -> string -> bool.

(** X28: [Utils.storage] on an available [localStorage].  When
    [JSON.stringify] yields a text and [setItem] has room for it, [set]
    answers true, leaves every other key as it was, and a following [get]
    of the key gives the value back provided [JSON.parse] inverts
    [JSON.stringify] on it (and the text is not empty).  When
    [JSON.stringify] throws, or [setItem] has no room, [set] answers
    false and stores nothing.  After [remove] or [clear], and for a key
    that was never stored, for an item that is the empty string and for
    one [JSON.parse] rejects, [get] answers the default value. *)
Theorem storage_round_trip (ls : Storage.localStorage) (k k' : string)
        (v d : V) :
  Storage.available ls = true ->
  (forall text, stringify v = Some text ->
     fits (Storage.items ls) k text = true ->
     fst (Storage.set V stringify fits k v ls) = true
     /\ (text <> EmptyString -> parse text = Some v ->
         Storage.get V parse k d
           (snd (Storage.set V stringify fits k v ls)) = v)
     /\ (k' <> k ->
         Storage.get V parse k' d
           (snd (Storage.set V stringify fits k v ls))
         = Storage.get V parse k' d ls))
  /\ (stringify v = None ->
      Storage.set V stringify fits k v ls = (false, ls))
  /\ (forall text, stringify v = Some text ->
        fits (Storage.items ls) k text = false ->
        Storage.set V stringify fits k v ls = (false, ls))
  /\ fst (Storage.remove k ls) = true
  /\ Storage.get V parse k d (snd (Storage.remove k ls)) = d
  /\ (k' <> k ->
      Storage.get V parse k' d (snd (Storage.remove k ls))
      = Storage.get V parse k' d ls)
  /\ fst (Storage.clear ls) = true
  /\ Storage.get V parse k d (snd (Storage.clear ls)) = d
  /\ (Storage.items ls k = None -> Storage.get V parse k d ls = d)
  /\ (Storage.items ls k = Some EmptyString ->
      Storage.get V parse k d ls = d)
  /\ (forall item, Storage.items ls k = Some item -> parse item = None ->
                   Storage.get V parse k d ls = d).
Proof.
  intros Hav. unfold Storage.set, Storage.get, Storage.remove,
    Storage.clear. rewrite Hav. cbn [fst snd Storage.available Storage.items].
  split; [|split; [|split; [|repeat split]]].
  - intros text Htext Hfits. rewrite Htext, Hfits.
    cbn [fst snd Storage.available Storage.items]. split; [reflexivity|].
    unfold Storage.setItem. split.
    + intros Hne Hparse. rewrite String.eqb_refl.
      destruct text; [contradiction|]. now rewrite Hparse.
    + intros Hk. apply String.eqb_neq in Hk. now rewrite Hk.
  - intros ->. reflexivity.
  - intros text -> ->. reflexivity.
  - unfold Storage.removeItem. now rewrite String.eqb_refl.
  - intros Hk. unfold Storage.removeItem.
    apply String.eqb_neq in Hk. now rewrite Hk.
  - intros ->. reflexivity.
  - intros ->. reflexivity.
  - intros item -> Hp. destruct item; [reflexivity | now rewrite Hp].
Qed.

End StorageFacts.

(** X28 for a storage that holds the number 7 as the text [7]. *)
Lemma storage_round_trip_witness :
  let stringify := fun _ : nat => Some "7"%string in
  let parse := fun t : string =>
                 if String.eqb t "7" then Some 7%nat else None in
  let fits := fun (_ : string -> option string) (_ _ : string) => true in
  let ls := {| Storage.available := true; Storage.items := fun _ => None |} in
  Storage.get nat parse "visits" 0%nat
    (snd (Storage.set nat stringify fits "visits" 7%nat ls)) = 7%nat.
Proof.
  cbv zeta.
  refine (proj1 (proj2 (proj1 (storage_round_trip nat
            (fun _ : nat => Some "7"%string)
            (fun t : string => if String.eqb t "7" then Some 7%nat else None)
            (fun _ _ _ => true)
            {| Storage.available := true; Storage.items := fun _ => None |}
            "visits"%string "other"%string 7%nat 0%nat
            eq_refl) "7"%string eq_refl eq_refl)) _ eq_refl).
  discriminate.
Defined.

(** ** The velocity lines in binary64 *)


(** What C5 keeps holds along the same 4000 frames in binary64: the
    residual never grows, is never 0, and the velocity stays on its side
    of the baseline. *)
Lemma relaxation_never_overshoots_in_binary64 :
  Binary64.never_overshoots 4000 Binary64.default_scene
    Binary64.nudged_star Binary64.nudged_star = true.
Proof. vm_compute. reflexivity. Qed.

(** In binary64 the increments added to stars 40 and 60 away from the
    pointer, whose distances add up to the influence radius, differ: the
    closer star receives the smaller one. *)
Lemma pull_at_equal_products_in_binary64 :
  let w := Binary64.default_scene in
  let near := Binary64.influence w (Binary64.star_on_axis 40%float) in
  let far := Binary64.influence w (Binary64.star_on_axis 60%float) in
  PrimFloat.ltb (PrimFloat.abs (Binary64.vx near))
                (PrimFloat.abs (Binary64.vx far)) = true.
Proof. vm_compute. reflexivity. Qed.
